(** * Option normalisation and process-invocation bridge of the wallet
      conformance test CLI (src/cli/options.ts, src/cli-server.ts)

    The TypeScript sources are embedded as Rocq functions.  JavaScript values
    that can reach the code (JSON bodies, parsed query strings, commander
    flags) are an inductive type; numbers are IEEE-754 binary64 values in the
    representation of the Standard Library's [spec_float]; strings are
    sequences of code units below 256; objects used as dictionaries are
    finite maps; the one object that is copied and then assigned to (the
    environment) lives in an explicit heap. *)

From Stdlib Require Import ZArith NArith String Ascii List Lia.
From Stdlib Require Import Floats.SpecFloat DecimalString.
From stdpp Require Import gmap strings list.

Local Open Scope string_scope.
Local Open Scope Z_scope.

(* ===================================================================== *)
(** ** JavaScript strings *)
(* ===================================================================== *)

(** WhiteSpace and LineTerminator code units below 256: TAB, LF, VT, FF, CR,
    SP and NBSP.  [String.prototype.trim] and [parseInt] strip the same set. *)
Definition is_js_whitespace (c : ascii) : bool :=
  let n := N_of_ascii c in
  ((9 <=? n) && (n <=? 13) || (n =? 32) || (n =? 160))%N.

Fixpoint trimStart (s : string) : string :=
  match s with
  | EmptyString => EmptyString
  | String c r => if is_js_whitespace c then trimStart r else s
  end.

Fixpoint trimEnd (s : string) : string :=
  match s with
  | EmptyString => EmptyString
  | String c r =>
      match trimEnd r with
      | EmptyString => if is_js_whitespace c then EmptyString else String c EmptyString
      | r' => String c r'
      end
  end.

(** [String.prototype.trim] *)
Definition trim (s : string) : string := trimEnd (trimStart s).

(** Lower-case mapping of one code unit: A-Z, and the Latin-1 capitals
    U+00C0..U+00DE except the multiplication sign U+00D7. *)
Definition lower_char (c : ascii) : ascii :=
  let n := N_of_ascii c in
  if ((65 <=? n) && (n <=? 90)
      || (192 <=? n) && (n <=? 222) && negb (n =? 215))%N
  then ascii_of_N (n + 32) else c.

(** [String.prototype.toLowerCase] *)
Fixpoint toLowerCase (s : string) : string :=
  match s with
  | EmptyString => EmptyString
  | String c r => String (lower_char c) (toLowerCase r)
  end.

Fixpoint str_repeat (c : ascii) (n : nat) : string :=
  match n with
  | O => EmptyString
  | S n' => String c (str_repeat c n')
  end.

(** [Array.prototype.join] on an array of strings. *)
Fixpoint join (sep : string) (l : list string) : string :=
  match l with
  | [] => EmptyString
  | [s] => s
  | s :: rest => s +:+ sep +:+ join sep rest
  end.

(** Decimal numeral of a natural number, as JavaScript prints integers. *)
Definition decimal (n : N) : string := NilZero.string_of_uint (N.to_uint n).

(* ===================================================================== *)
(** ** JavaScript numbers *)
(* ===================================================================== *)

(** A Number is a binary64 value: NaN, a signed infinity, a signed zero or
    [(-1)^s * m * 2^e]. *)
Abbreviation number := spec_float.

Definition prec : Z := 53.
Definition emax : Z := 1024.

(** The Number value for a mathematical dyadic [m * 2^e]: round to nearest,
    ties to even. *)
Definition number_of_dyadic (m e : Z) : number := binary_normalize prec emax m e false.

(** The Number value for a mathematical integer. *)
Definition number_of_Z (z : Z) : number := number_of_dyadic z 0.

(** [Number.isNaN] on a value that is already known to be a number. *)
Definition Number_isNaN (x : number) : bool :=
  match x with
  | S754_nan => true
  | _ => false
  end.

(** Value of a digit character in radices up to 36. *)
Definition digit_value (c : ascii) : option Z :=
  let n := Z.of_N (N_of_ascii c) in
  if (48 <=? n) && (n <=? 57) then Some (n - 48)
  else if (97 <=? n) && (n <=? 122) then Some (n - 87)
  else if (65 <=? n) && (n <=? 90) then Some (n - 55)
  else None.

Definition radix_digit (R : Z) (c : ascii) : option Z :=
  match digit_value c with
  | Some d => if d <? R then Some d else None
  | None => None
  end.

(** Longest prefix of radix-[R] digits, accumulated most significant digit
    first; returns the number of digits read and their value. *)
Fixpoint read_digits (R : Z) (s : string) (count : nat) (acc : Z) : nat * Z :=
  match s with
  | EmptyString => (count, acc)
  | String c r =>
      match radix_digit R c with
      | Some d => read_digits R r (S count) (acc * R + d)
      | None => (count, acc)
      end
  end.

(** [Number.parseInt(string, radix)], the radix being an integer: leading
    whitespace is skipped, one sign is read, a radix outside 2..36 other than
    0 gives NaN, a [0x] prefix is stripped in radix 16 or 0, and the longest
    prefix of digits is converted; an empty prefix gives NaN. *)
Definition Number_parseInt (inputString : string) (radix : Z) : number :=
  let trimmed := trimStart inputString in
  let '(neg, body) :=
    match trimmed with
    | String "-" r => (true, r)
    | String "+" r => (false, r)
    | _ => (false, trimmed)
    end in
  if negb (radix =? 0) && ((radix <? 2) || (36 <? radix)) then S754_nan
  else
    let '(R, body) :=
      if (radix =? 0) || (radix =? 16) then
        match body with
        | String "0" (String "x" r) | String "0" (String "X" r) => (16, r)
        | _ => (if radix =? 0 then 10 else radix, body)
        end
      else (radix, body) in
    match read_digits R body O 0 with
    | (O, _) => S754_nan
    | (_, mathInt) =>
        if mathInt =? 0 then S754_zero neg
        else number_of_Z (if neg then - mathInt else mathInt)
    end.

(** *** Number::toString, radix 10 *)

Definition ndigits (z : Z) : Z :=
  Z.of_nat (String.length (decimal (Z.to_N z))).

(** Decimal exponent [n] of a positive fraction [a/b]:
    [10^(n-1) <= a/b < 10^n]. *)
Definition decimal_exponent (a b : Z) : Z :=
  if b <=? a then ndigits (a / b)
  else 1 - ndigits ((b + a - 1) / a - 1).

(** [floor (a/b * 10^sc)] *)
Definition scaled_floor (a b sc : Z) : Z :=
  if 0 <=? sc then (a * 10 ^ sc) / b else a / (b * 10 ^ (- sc)).

(** Compare the decimal [s * 10^d] with the binary [c * 2^e2]. *)
Definition compare_dec_bin (s d c e2 : Z) : comparison :=
  (s * 10 ^ Z.max d 0 * 2 ^ Z.max (- e2) 0)
  ?= (c * 2 ^ Z.max e2 0 * 10 ^ Z.max (- d) 0).

(** Does the decimal [s * 10^d] round (to nearest, ties to even) to the
    binary64 value [m * 2^e]?  The rounding interval is bounded by the
    midpoints to the neighbouring values, expressed in units of [2^(e-2)]. *)
Definition rounds_to (m : positive) (e : Z) (s d : Z) : bool :=
  let zm := Zpos m in
  let lo := if (zm =? 2 ^ 52) && (-1074 <? e) then 4 * zm - 1 else 4 * zm - 2 in
  let hi := 4 * zm + 2 in
  let even := Z.even zm in
  match compare_dec_bin s d lo (e - 2) with
  | Gt => true
  | Eq => even
  | Lt => false
  end
  &&
  match compare_dec_bin s d hi (e - 2) with
  | Lt => true
  | Eq => even
  | Gt => false
  end.

(** The candidates with [k] digits next to [m * 2^e]: the decimal just below
    (or equal) and the one just above, the closer one first and, when the
    two are equally close, the even one first.  Each is a pair [(s, n)]
    standing for [s * 10^(n-k)] with [10^(k-1) <= s < 10^k]. *)
Definition candidates (m : positive) (e : Z) (k : Z) : list (Z * Z) :=
  let a := Zpos m * 2 ^ Z.max e 0 in
  let b := 2 ^ Z.max (- e) 0 in
  let n0 := decimal_exponent a b in
  let s_lo := scaled_floor a b (k - n0) in
  let lo := (s_lo, n0) in
  let hi := if s_lo + 1 =? 10 ^ k then (10 ^ (k - 1), n0 + 1) else (s_lo + 1, n0) in
  let lo_first :=
    match compare_dec_bin (2 * s_lo + 1) (n0 - k) (2 * Zpos m) e with
    | Lt => false
    | Eq => Z.even s_lo
    | Gt => true
    end in
  if lo_first then [lo; hi] else [hi; lo].

(** Shortest digit string that reads back as [m * 2^e]: the least [k] with a
    candidate in the rounding interval, trying [k], [k+1], ... *)
Fixpoint shortest_digits (fuel : nat) (m : positive) (e : Z) (k : Z) : Z * Z * Z :=
  let cs := candidates m e k in
  match List.find (fun '(s, n) => rounds_to m e s (n - k)) cs with
  | Some (s, n) => (s, n, k)
  | None =>
      match fuel with
      | O => match cs with (s, n) :: _ => (s, n, k) | [] => (0, 0, k) end
      | S fuel' => shortest_digits fuel' m e (k + 1)
      end
  end.

(** Layout of the digits [s] (there are [k] of them) with decimal point
    position [n]: steps 7 to 12 of Number::toString. *)
Definition layout_digits (s n k : Z) : string :=
  let D := decimal (Z.to_N s) in
  if (k <=? n) && (n <=? 21) then
    D +:+ str_repeat "0" (Z.to_nat (n - k))
  else if (0 <? n) && (n <=? 21) then
    substring 0 (Z.to_nat n) D +:+ "." +:+ substring (Z.to_nat n) (Z.to_nat (k - n)) D
  else if (-6 <? n) && (n <=? 0) then
    "0." +:+ str_repeat "0" (Z.to_nat (- n)) +:+ D
  else
    let ex := (if n - 1 <? 0 then "-" else "+") +:+ decimal (Z.to_N (Z.abs (n - 1))) in
    if k =? 1 then D +:+ "e" +:+ ex
    else substring 0 1 D +:+ "." +:+ substring 1 (Z.to_nat (k - 1)) D +:+ "e" +:+ ex.

(** [Number.prototype.toString()] *)
Definition Number_toString (x : number) : string :=
  match x with
  | S754_nan => "NaN"
  | S754_zero _ => "0"
  | S754_infinity s => if s then "-Infinity" else "Infinity"
  | S754_finite sg m e =>
      let '(s, n, k) := shortest_digits 16 m e 1 in
      (if sg then "-" else "") +:+ layout_digits s n k
  end.

(* ===================================================================== *)
(** ** JavaScript values, exceptions and [String(value)] *)
(* ===================================================================== *)

#[local] Set Warnings "-register-all".

(** The values a request or a flag parser can deliver: what JSON and query
    strings denote, plus [undefined] for an absent property. *)
Inductive JsValue :=
  | JUndefined
  | JNull
  | JBool (b : bool)
  | JNum (x : number)
  | JStr (s : string)
  | JArr (elements : list JsValue)
  | JObj (props : list (string * JsValue)).

(** A thrown value, or the reason of a rejected promise. *)
Inductive Thrown :=
  | ErrorInstance (message : string)
  | NonError (v : JsValue).

Inductive Completion (A : Type) :=
  | Normal (a : A)
  | Throw (e : Thrown).
Arguments Normal {A} a.
Arguments Throw {A} e.

#[global] Instance Completion_ret : MRet Completion := @Normal.
#[global] Instance Completion_bind : MBind Completion := fun A B f c =>
  match c with
  | Normal a => f a
  | Throw e => Throw e
  end.

Definition has_own_property (key : string) (props : list (string * JsValue)) : bool :=
  existsb (fun kv => String.eqb (fst kv) key) props.

Definition cannot_convert : Thrown :=
  ErrorInstance "Cannot convert object to primitive value".

(** [String(value)], that is ToString.  An array is converted by
    [Array.prototype.join]: [undefined] and [null] elements give the empty
    string.  A plain object gives ["[object Object]"] through
    [Object.prototype.toString]; data read from JSON holds no functions, so
    an own [toString] property hides that method, [valueOf] returns the
    object itself, and the conversion throws a TypeError. *)
Fixpoint ToString (v : JsValue) : Completion string :=
  match v with
  | JUndefined => Normal "undefined"
  | JNull => Normal "null"
  | JBool b => Normal (if b then "true" else "false")
  | JNum x => Normal (Number_toString x)
  | JStr s => Normal s
  | JArr elements =>
      strs ← mapM (fun element =>
                     match element with
                     | JUndefined | JNull => Normal ""
                     | _ => ToString element
                     end) elements;
      Normal (join "," strs)
  | JObj props =>
      if has_own_property "toString" props then Throw cannot_convert
      else Normal "[object Object]"
  end.

(* ===================================================================== *)
(** ** src/cli/options.ts *)
(* ===================================================================== *)

Record CliOptions := {
  fileIni : option string;
  credentialIssuerUri : option string;
  presentationAuthorizeUri : option string;
  credentialTypes : option string;
  timeout : option number;
  maxRetries : option number;
  logLevel : option string;
  logFile : option string;
  port : option number;
  saveCredential : option bool;
}.

Record NormalizedOptionsResult := {
  options : CliOptions;
  errors : list string;
}.

(** [keyof CliOptions] *)
Inductive OptionKey :=
  | K_fileIni
  | K_credentialIssuerUri
  | K_presentationAuthorizeUri
  | K_credentialTypes
  | K_timeout
  | K_maxRetries
  | K_logLevel
  | K_logFile
  | K_port
  | K_saveCredential.

Definition optionAliases (k : OptionKey) : list string :=
  match k with
  | K_fileIni => ["fileIni"; "file-ini"]
  | K_credentialIssuerUri => ["credentialIssuerUri"; "credential-issuer-uri"]
  | K_presentationAuthorizeUri =>
      ["presentationAuthorizeUri"; "presentation-authorize-uri"]
  | K_credentialTypes => ["credentialTypes"; "credential-types"]
  | K_timeout => ["timeout"]
  | K_maxRetries => ["maxRetries"; "max-retries"]
  | K_logLevel => ["logLevel"; "log-level"]
  | K_logFile => ["logFile"; "log-file"]
  | K_port => ["port"]
  | K_saveCredential => ["saveCredential"; "save-credential"]
  end.

Definition truthyValues : gset string := {[ "true"; "1"; "yes" ]}.
Definition falsyValues : gset string := {[ "false"; "0"; "no" ]}.

(** [set.has(x)] *)
Definition has (set : gset string) (x : string) : bool := bool_decide (x ∈ set).

(** The [errors] array is passed by reference and only ever pushed to: the
    functions take its contents and return the new contents. *)
Definition coerceBoolean (value : JsValue) (optionName : string)
    (errors : list string) : option bool * list string :=
  let invalid :=
    (None, (errors ++ ["Invalid boolean value for " +:+ optionName +:+ "."])%list) in
  match value with
  | JUndefined | JNull => (None, errors)
  | JBool b => (Some b, errors)
  | JStr s =>
      let normalized := toLowerCase (trim s) in
      if has truthyValues normalized then (Some true, errors)
      else if has falsyValues normalized then (Some false, errors)
      else invalid
  | _ => invalid
  end.

Definition coerceNumber (value : JsValue) (optionName : string)
    (errors : list string) : option number * list string :=
  let invalid :=
    (None, (errors ++ ["Invalid numeric value for " +:+ optionName +:+ "."])%list) in
  match value with
  | JUndefined | JNull | JStr "" => (None, errors)
  | JNum x => if negb (Number_isNaN x) then (Some x, errors) else invalid
  | JStr s =>
      let parsed := Number_parseInt s 10 in
      if negb (Number_isNaN parsed) then (Some parsed, errors) else invalid
  | _ => invalid
  end.

Definition coerceString (value : JsValue) : Completion (option string) :=
  match value with
  | JUndefined | JNull => Normal None
  | JArr elements =>
      strs ← mapM ToString elements;
      Normal (Some (join "," strs))
  | _ =>
      s ← ToString value;
      Normal (Some s)
  end.

(** [alias in input] also looks at [Object.prototype], none of whose
    properties is an alias of [optionAliases]; on those names it is the test
    for an own property. *)
Fixpoint getRawValue (input : gmap string JsValue) (aliases : list string) : JsValue :=
  match aliases with
  | [] => JUndefined
  | alias :: rest =>
      match input !! alias with
      | Some v => v
      | None => getRawValue input rest
      end
  end.

(** The properties of the object literal are evaluated in source order. *)
Definition normalizeCliOptions (input : gmap string JsValue)
    : Completion NormalizedOptionsResult :=
  let errors : list string := [] in
  fileIni ← coerceString (getRawValue input (optionAliases K_fileIni));
  credentialIssuerUri ←
    coerceString (getRawValue input (optionAliases K_credentialIssuerUri));
  presentationAuthorizeUri ←
    coerceString (getRawValue input (optionAliases K_presentationAuthorizeUri));
  credentialTypes ←
    coerceString (getRawValue input (optionAliases K_credentialTypes));
  let '(timeout, errors) :=
    coerceNumber (getRawValue input (optionAliases K_timeout)) "timeout" errors in
  let '(maxRetries, errors) :=
    coerceNumber (getRawValue input (optionAliases K_maxRetries)) "max-retries" errors in
  logLevel ← coerceString (getRawValue input (optionAliases K_logLevel));
  logFile ← coerceString (getRawValue input (optionAliases K_logFile));
  let '(port, errors) :=
    coerceNumber (getRawValue input (optionAliases K_port)) "port" errors in
  let '(saveCredential, errors) :=
    coerceBoolean (getRawValue input (optionAliases K_saveCredential))
      "save-credential" errors in
  Normal {|
    options := {|
      fileIni := fileIni;
      credentialIssuerUri := credentialIssuerUri;
      presentationAuthorizeUri := presentationAuthorizeUri;
      credentialTypes := credentialTypes;
      timeout := timeout;
      maxRetries := maxRetries;
      logLevel := logLevel;
      logFile := logFile;
      port := port;
      saveCredential := saveCredential;
    |};
    errors := errors;
  |}.

(** *** The process: ambient environment, working directory, heap *)

(** Objects that are shared and assigned to are heap cells addressed by
    their index; an environment object maps variable names to strings. *)
Definition loc := nat.

Record Process := {
  process_heap : list (gmap string string);
  process_env : loc;
  process_cwd : string;
}.

Definition with_heap (p : Process) (h : list (gmap string string)) : Process :=
  {| process_heap := h; process_env := process_env p; process_cwd := process_cwd p |}.

(** The contents of the object at [l]. *)
Definition deref (p : Process) (l : loc) : gmap string string :=
  default ∅ (process_heap p !! l).

(** [{ ...process.env }]: a new object holding the own properties of the
    ambient environment. *)
Definition spread_process_env (p : Process) : loc * Process :=
  (length (process_heap p),
   with_heap p (process_heap p ++ [deref p (process_env p)])).

(** [obj.key = value] *)
Definition assign (l : loc) (key value : string) (p : Process) : Process :=
  with_heap p (alter (fun obj => <[key := value]> obj) l (process_heap p)).

(** [if (field) { ... }] on an optional string: [undefined] and the empty
    string are falsy. *)
Definition if_truthy (field : option string) (body : string → Process → Process)
    (p : Process) : Process :=
  match field with
  | Some (String _ _ as s) => body s p
  | _ => p
  end.

(** [if (field !== undefined) { ... }] *)
Definition if_defined {A : Type} (field : option A) (body : A → Process → Process)
    (p : Process) : Process :=
  match field with
  | Some x => body x p
  | None => p
  end.

(** [Boolean.prototype.toString()] *)
Definition Boolean_toString (b : bool) : string := if b then "true" else "false".

Section options_env.

(** [resolve] of Node's [path] module, which depends on the platform. *)
Variable resolve : string → string → string.

Definition setEnvFromOptions (options : CliOptions) (p : Process) : loc * Process :=
  let '(env, p) := spread_process_env p in
  let p := if_truthy (fileIni options) (fun v =>
             assign env "CONFIG_FILE_INI" (resolve (process_cwd p) v)) p in
  let p := if_truthy (credentialIssuerUri options) (fun v =>
             assign env "CONFIG_CREDENTIAL_ISSUER_URI" v) p in
  let p := if_truthy (presentationAuthorizeUri options) (fun v =>
             assign env "CONFIG_PRESENTATION_AUTHORIZE_URI" v) p in
  let p := if_truthy (credentialTypes options) (fun v =>
             assign env "CONFIG_CREDENTIAL_TYPES" v) p in
  let p := if_defined (timeout options) (fun v =>
             assign env "CONFIG_TIMEOUT" (Number_toString v)) p in
  let p := if_defined (maxRetries options) (fun v =>
             assign env "CONFIG_MAX_RETRIES" (Number_toString v)) p in
  let p := if_truthy (logLevel options) (fun v =>
             assign env "CONFIG_LOG_LEVEL" v) p in
  let p := if_truthy (logFile options) (fun v =>
             assign env "CONFIG_LOG_FILE" v) p in
  let p := if_defined (port options) (fun v =>
             assign env "CONFIG_PORT" (Number_toString v)) p in
  let p := if_defined (saveCredential options) (fun v =>
             assign env "CONFIG_SAVE_CREDENTIAL" (Boolean_toString v)) p in
  (env, p).

End options_env.

(** *** [path.resolve] on POSIX, for two arguments (the first absolute) *)

(** The segments of a path between its slashes. *)
Fixpoint segments (s : string) : list string :=
  match s with
  | EmptyString => [EmptyString]
  | String c r =>
      match segments r with
      | seg :: segs =>
          if Ascii.eqb c "/" then EmptyString :: seg :: segs
          else String c seg :: segs
      | [] => [String c EmptyString]
      end
  end.

(** Drops empty and ["."] segments and resolves [".."] against the segments
    kept so far ([kept] is in reverse order). *)
Fixpoint normalize_segments (allowAboveRoot : bool) (segs kept : list string)
    : list string :=
  match segs with
  | [] => rev kept
  | seg :: rest =>
      if String.eqb seg "" || String.eqb seg "." then
        normalize_segments allowAboveRoot rest kept
      else if String.eqb seg ".." then
        match kept with
        | top :: kept' =>
            if String.eqb top ".."
            then normalize_segments allowAboveRoot rest (seg :: kept)
            else normalize_segments allowAboveRoot rest kept'
        | [] =>
            normalize_segments allowAboveRoot rest
              (if allowAboveRoot then [seg] else [])
        end
      else normalize_segments allowAboveRoot rest (seg :: kept)
  end.

Definition is_absolute (s : string) : bool :=
  match s with
  | String "/" _ => true
  | _ => false
  end.

Definition posix_resolve (from to : string) : string :=
  let path :=
    if is_absolute to then to
    else if String.eqb to "" then from
    else from +:+ "/" +:+ to in
  let absolute := is_absolute path in
  let segs := normalize_segments (negb absolute) (segments path) [] in
  if absolute then "/" +:+ join "/" segs
  else match segs with
       | [] => "."
       | _ => join "/" segs
       end.

(* ===================================================================== *)
(** ** src/cli-server.ts *)
(* ===================================================================== *)

Record CommandResult := {
  exitCode : option Z;
  stdout : string;
  stderr : string;
}.

(** What [spawn] was called with: the child receives the contents of the
    environment object it is given. *)
Record SpawnCall := {
  spawn_command : string;
  spawn_args : list string;
  spawn_env : gmap string string;
}.

(** The events a child process emits, in the order the listeners see them. *)
Inductive ChildEvent :=
  | StdoutData (chunk : string)
  | StderrData (chunk : string)
  | ErrorEvent (error : Thrown)
  | CloseEvent (exitCode : option Z).

(** The operating system's answer to a [spawn] call: an exception thrown by
    the call itself, or the events of the child. *)
Inductive SpawnResult :=
  | SpawnThrew (error : Thrown)
  | Spawned (events : list ChildEvent).

Inductive PromiseState (A : Type) :=
  | Pending
  | Fulfilled (a : A)
  | Rejected (reason : Thrown).
Arguments Pending {A}.
Arguments Fulfilled {A} a.
Arguments Rejected {A} reason.

(** The variables the listeners of [runCommand] close over, and the promise
    they settle. *)
Record RunState := {
  run_stdout : string;
  run_stderr : string;
  run_promise : PromiseState CommandResult;
}.

(** [resolve] and [reject] act on a pending promise only. *)
Definition settle (st : RunState) (outcome : PromiseState CommandResult) : RunState :=
  match run_promise st with
  | Pending =>
      {| run_stdout := run_stdout st; run_stderr := run_stderr st;
         run_promise := outcome |}
  | _ => st
  end.

Definition on_event (st : RunState) (ev : ChildEvent) : RunState :=
  match ev with
  | StdoutData chunk =>
      {| run_stdout := run_stdout st +:+ chunk; run_stderr := run_stderr st;
         run_promise := run_promise st |}
  | StderrData chunk =>
      {| run_stdout := run_stdout st; run_stderr := run_stderr st +:+ chunk;
         run_promise := run_promise st |}
  | ErrorEvent error => settle st (Rejected error)
  | CloseEvent exitCode =>
      settle st (Fulfilled {| exitCode := exitCode;
                              stdout := run_stdout st;
                              stderr := run_stderr st |})
  end.

Definition runCommand (os : SpawnCall → SpawnResult)
    (command : string) (args : list string) (env : gmap string string)
    : PromiseState CommandResult :=
  match os {| spawn_command := command; spawn_args := args; spawn_env := env |} with
  | SpawnThrew error => Rejected error
  | Spawned events =>
      run_promise
        (fold_left on_event events
           {| run_stdout := ""; run_stderr := ""; run_promise := Pending |})
  end.

Record Request := {
  query : gmap string JsValue;
  body : JsValue;
}.

Fixpoint index_props (i : N) (elements : list JsValue) : list (string * JsValue) :=
  match elements with
  | [] => []
  | v :: rest => (decimal i, v) :: index_props (N.succ i) rest
  end.

Fixpoint string_chars (s : string) : list JsValue :=
  match s with
  | EmptyString => []
  | String c r => JStr (String c EmptyString) :: string_chars r
  end.

(** The own enumerable properties that object spread copies from a value;
    a later property of the same name replaces an earlier one. *)
Definition own_properties (v : JsValue) : gmap string JsValue :=
  let as_map (props : list (string * JsValue)) : gmap string JsValue :=
    fold_left (fun m kv => <[fst kv := snd kv]> m) props ∅ in
  match v with
  | JObj props => as_map props
  | JArr elements => as_map (index_props 0 elements)
  | JStr s => as_map (index_props 0 (string_chars s))
  | _ => ∅
  end.

(** [{ ...req.query, ...(req.body ?? {}) }] *)
Definition normalizeRequestParams (req : Request) : gmap string JsValue :=
  own_properties (body req) ∪ query req.

Record CommandInfo := {
  name : string;
  method : list string;
  path : string;
}.

(** The JSON documents the server sends. *)
Inductive Json :=
  | ErrorsJson (errors : list string)
  | PayloadJson (command : string) (exitCode : option Z) (stdout stderr : string)
  | FailureJson (error message : string)
  | StatusJson (status : string)
  | CommandsJson (commands : list CommandInfo) (options : list string).

Record Response := {
  status : Z;
  json : Json;
}.

(** How one call of an asynchronous handler ends. *)
Inductive Outcome :=
  | Responded (r : Response)
  | NeverResponds
  | HandlerThrew (e : Thrown).

Record HandlerRun := {
  outcome : Outcome;
  spawned : list SpawnCall;
  process_after : Process;
}.

Section server.

Variable resolve : string → string → string.

(** The subprocess and its events are supplied by [os]; the heap of the
    server process is [p]. *)
Variable os : SpawnCall → SpawnResult.

Definition createTestHandler (scriptName : string) (req : Request) (p : Process)
    : HandlerRun :=
  let rawParams := normalizeRequestParams req in
  match normalizeCliOptions rawParams with
  | Throw e => {| outcome := HandlerThrew e; spawned := []; process_after := p |}
  | Normal {| options := options; errors := errors |} =>
      if (0 <? length errors)%nat then
        {| outcome := Responded {| status := 400; json := ErrorsJson errors |};
           spawned := [];
           process_after := p |}
      else
        let '(env, p) := setEnvFromOptions resolve options p in
        let call := {| spawn_command := "pnpm"; spawn_args := [scriptName];
                       spawn_env := deref p env |} in
        let respond r :=
          {| outcome := r; spawned := [call]; process_after := p |} in
        match runCommand os "pnpm" [scriptName] (deref p env) with
        | Fulfilled result =>
            let payload :=
              PayloadJson scriptName (exitCode result) (stdout result) (stderr result) in
            if negb (bool_decide (exitCode result = Some 0)) then
              respond (Responded {| status := 500; json := payload |})
            else
              respond (Responded {| status := 200; json := payload |})
        | Rejected error =>
            respond (Responded {|
              status := 500;
              json := FailureJson "command_execution_failed"
                        match error with
                        | ErrorInstance message => message
                        | NonError _ => "Unknown error"
                        end |})
        | Pending => respond NeverResponds
        end
  end.

Inductive Method := GET | POST.

(** Route matching as [express()] sets it up (routing is not case sensitive
    and not strict): the path of a request matches a route written in lower
    case without a final slash when it is that route up to the case of the
    letters A-Z and one optional slash at the end.  [route_key] maps the
    paths that match such a route to the route. *)
Definition fold_case (c : ascii) : ascii :=
  let n := N_of_ascii c in
  if ((65 <=? n) && (n <=? 90))%N then ascii_of_N (n + 32) else c.

Fixpoint route_key (path : string) : string :=
  match path with
  | EmptyString => EmptyString
  | String c EmptyString =>
      if Ascii.eqb c "/" then EmptyString else String (fold_case c) EmptyString
  | String c rest => String (fold_case c) (route_key rest)
  end.

(** The routes registered by [createCliServer]: the handler for a method
    and the path of a request, if there is one. *)
Definition createCliServer (m : Method) (path : string)
    : option (Request → Process → HandlerRun) :=
  let static (j : Json) (req : Request) (p : Process) :=
    {| outcome := Responded {| status := 200; json := j |};
       spawned := []; process_after := p |} in
  match m, route_key path with
  | GET, "/health" => Some (static (StatusJson "ok"))
  | GET, "/commands" =>
      Some (static (CommandsJson
        [ {| name := "test:issuance"; method := ["GET"; "POST"];
             path := "/test/issuance" |};
          {| name := "test:presentation"; method := ["GET"; "POST"];
             path := "/test/presentation" |} ]
        [ "fileIni"; "credentialIssuerUri"; "presentationAuthorizeUri";
          "credentialTypes"; "timeout"; "maxRetries"; "logLevel"; "logFile";
          "port"; "saveCredential" ]))
  | GET, "/test/issuance" => Some (createTestHandler "test:issuance")
  | POST, "/test/issuance" => Some (createTestHandler "test:issuance")
  | GET, "/test/presentation" => Some (createTestHandler "test:presentation")
  | POST, "/test/presentation" => Some (createTestHandler "test:presentation")
  | _, _ => None
  end.

End server.

(** *** The server's listen port (start-up code of src/cli-server.ts) *)


(* ===================================================================== *)
(** ** The command-line entry point (the commander program that calls
       [setEnvFromOptions]) *)
(* ===================================================================== *)

(** The value parser of [--timeout], [--max-retries] and [--port]:
    [(val) => parseInt(val, 10)]. *)
Definition parseIntArg (val : string) : number := Number_parseInt val 10.

(** What is given on the command line for the flags [addCommonOptions]
    declares: the text that follows each flag taking a value (the last one
    if the flag is repeated), and whether [--save-credential] is there. *)
Record Flags := {
  file_ini : option string;
  credential_issuer_uri : option string;
  presentation_authorize_uri : option string;
  credential_types : option string;
  timeout_text : option string;
  max_retries_text : option string;
  log_level : option string;
  log_file : option string;
  port_text : option string;
  save_credential : bool;
}.

(** The options object commander hands to the action for these
    declarations: each flag is stored under its camel-case name; a flag
    declared with a parser stores what the parser returns for its text; the
    flag without a value stores [true]; a flag that is not given stores
    nothing. *)
Definition addCommonOptions (flags : Flags) : CliOptions :=
  {| fileIni := file_ini flags;
     credentialIssuerUri := credential_issuer_uri flags;
     presentationAuthorizeUri := presentation_authorize_uri flags;
     credentialTypes := credential_types flags;
     timeout := parseIntArg <$> timeout_text flags;
     maxRetries := parseIntArg <$> max_retries_text flags;
     logLevel := log_level flags;
     logFile := log_file flags;
     port := parseIntArg <$> port_text flags;
     saveCredential := if save_credential flags then Some true else None |}.

(** What [execSync] was called with; the standard streams are inherited. *)
Record ExecCall := {
  exec_command : string;
  exec_env : gmap string string;
}.

(** [execSync] returns when the command exits with status 0 and throws
    otherwise (non-zero status, signal, or failure to start). *)
Inductive ExecResult :=
  | ExecReturned
  | ExecThrew (error : Thrown).

Inductive ActionOutcome :=
  | ActionReturns
  | ProcessExits (code : Z).

Record ActionRun := {
  action_outcome : ActionOutcome;
  executed : list ExecCall;
  action_process : Process;
}.

Section cli.

Variable resolve : string → string → string.
Variable execSync : ExecCall → ExecResult.

(** The callback registered with [testIssuance.action]. *)
Definition testIssuance_action (options : CliOptions) (p : Process) : ActionRun :=
  let '(env, p) := setEnvFromOptions resolve options p in
  let call := {| exec_command := "pnpm test:issuance"; exec_env := deref p env |} in
  match execSync call with
  | ExecReturned =>
      {| action_outcome := ActionReturns; executed := [call]; action_process := p |}
  | ExecThrew _ =>
      {| action_outcome := ProcessExits 1; executed := [call]; action_process := p |}
  end.

(** The callback registered with [testPresentation.action]. *)
Definition testPresentation_action (options : CliOptions) (p : Process) : ActionRun :=
  let '(env, p) := setEnvFromOptions resolve options p in
  let call := {| exec_command := "pnpm test:presentation"; exec_env := deref p env |} in
  match execSync call with
  | ExecReturned =>
      {| action_outcome := ActionReturns; executed := [call]; action_process := p |}
  | ExecThrew _ =>
      {| action_outcome := ProcessExits 1; executed := [call]; action_process := p |}
  end.

End cli.


(* ===================================================================== *)
(** ** Vocabulary of the properties *)
(* ===================================================================== *)

Fixpoint all_chars (P : ascii → bool) (s : string) : bool :=
  match s with
  | EmptyString => true
  | String c r => P c && all_chars P r
  end.

Definition is_decimal_digit (c : ascii) : bool :=
  let n := N_of_ascii c in ((48 <=? n) && (n <=? 57))%N.

Definition starts_with_decimal_digit (s : string) : bool :=
  match s with
  | String c _ => is_decimal_digit c
  | EmptyString => false
  end.

(** The character of a decimal digit [0 <= d <= 9]. *)
Definition digit_char (d : Z) : ascii := ascii_of_N (Z.to_N (48 + d)).

Fixpoint digit_string (ds : list Z) : string :=
  match ds with
  | [] => EmptyString
  | d :: rest => String (digit_char d) (digit_string rest)
  end.

(** Positional value of a decimal numeral, most significant digit first. *)
Fixpoint digits_value (ds : list Z) : Z :=
  match ds with
  | [] => 0
  | d :: rest => d * 10 ^ Z.of_nat (length rest) + digits_value rest
  end.

(** The integer a Number stands for, when it is one. *)
Definition integer_value (x : number) : option Z :=
  match x with
  | S754_zero _ => Some 0
  | S754_finite s m e =>
      let magnitude :=
        if 0 <=? e then Some (Zpos m * 2 ^ e)
        else if Zpos m mod 2 ^ (- e) =? 0 then Some (Zpos m / 2 ^ (- e))
        else None in
      (fun v => if s then - v else v) <$> magnitude
  | S754_infinity _ | S754_nan => None
  end.

(** The Number for the integer [n >= 0] with a sign: zero keeps its sign. *)
Definition integer_number (negative : bool) (n : Z) : number :=
  if n =? 0 then S754_zero negative
  else number_of_Z (if negative then - n else n).

(** Values on which [String(...)] does not throw: no object with an own
    [toString] property, at any depth of arrays. *)
Fixpoint convertible (v : JsValue) : bool :=
  match v with
  | JArr elements => forallb convertible elements
  | JObj props => negb (has_own_property "toString" props)
  | _ => true
  end.

(** A raw value of a numeric option that is rejected: a string other than
    the empty one on which parsing fails, NaN, or a value that is neither a
    number nor a string. *)
Definition rejected_numeric (value : JsValue) : Prop :=
  match value with
  | JUndefined | JNull => False
  | JNum x => Number_isNaN x = true
  | JStr s => s ≠ "" ∧ Number_isNaN (Number_parseInt s 10) = true
  | JBool _ | JArr _ | JObj _ => True
  end.

(** The property names of [CliOptions]. *)
Definition key_name (k : OptionKey) : string :=
  match k with
  | K_fileIni => "fileIni"
  | K_credentialIssuerUri => "credentialIssuerUri"
  | K_presentationAuthorizeUri => "presentationAuthorizeUri"
  | K_credentialTypes => "credentialTypes"
  | K_timeout => "timeout"
  | K_maxRetries => "maxRetries"
  | K_logLevel => "logLevel"
  | K_logFile => "logFile"
  | K_port => "port"
  | K_saveCredential => "saveCredential"
  end.

(** The hyphenated spelling of a camel-case name: each capital becomes a
    hyphen and the lower-case letter. *)
Fixpoint hyphenate (s : string) : string :=
  match s with
  | EmptyString => EmptyString
  | String c r =>
      let n := N_of_ascii c in
      if ((65 <=? n) && (n <=? 90))%N
      then String "-" (String (lower_char c) (hyphenate r))
      else String c (hyphenate r)
  end.

(** The messages of the four options whose coercion can fail, in the order
    in which [normalizeCliOptions] evaluates them. *)
Definition fallible_messages : list string :=
  [ "Invalid numeric value for timeout.";
    "Invalid numeric value for max-retries.";
    "Invalid numeric value for port.";
    "Invalid boolean value for save-credential." ].

(** The variables the projector can write. *)
Definition config_keys : list string :=
  [ "CONFIG_FILE_INI"; "CONFIG_CREDENTIAL_ISSUER_URI";
    "CONFIG_PRESENTATION_AUTHORIZE_URI"; "CONFIG_CREDENTIAL_TYPES";
    "CONFIG_TIMEOUT"; "CONFIG_MAX_RETRIES"; "CONFIG_LOG_LEVEL";
    "CONFIG_LOG_FILE"; "CONFIG_PORT"; "CONFIG_SAVE_CREDENTIAL" ].

(** The mapping of the string options: variable, field, and the value
    written for the field's string. *)
Definition string_mapping (resolve : string → string → string) (cwd : string)
    (options : CliOptions) : list (string * option string * (string → string)) :=
  [ ("CONFIG_FILE_INI", fileIni options, resolve cwd);
    ("CONFIG_CREDENTIAL_ISSUER_URI", credentialIssuerUri options, id);
    ("CONFIG_PRESENTATION_AUTHORIZE_URI", presentationAuthorizeUri options, id);
    ("CONFIG_CREDENTIAL_TYPES", credentialTypes options, id);
    ("CONFIG_LOG_LEVEL", logLevel options, id);
    ("CONFIG_LOG_FILE", logFile options, id) ].

(** The mapping of the numeric and boolean options: variable and the
    stringified field. *)
Definition scalar_mapping (options : CliOptions) : list (string * option string) :=
  [ ("CONFIG_TIMEOUT", Number_toString <$> timeout options);
    ("CONFIG_MAX_RETRIES", Number_toString <$> maxRetries options);
    ("CONFIG_PORT", Number_toString <$> port options);
    ("CONFIG_SAVE_CREDENTIAL", Boolean_toString <$> saveCredential options) ].

(** The contents of the object [setEnvFromOptions] returns, as a function
    of the ambient variables: one conditional update per statement. *)
Definition put_truthy (key : string) (field : option string) (f : string → string)
    (m : gmap string string) : gmap string string :=
  match field with
  | Some (String _ _ as s) => <[key := f s]> m
  | _ => m
  end.

Definition put_defined (key : string) (field : option string)
    (m : gmap string string) : gmap string string :=
  match field with
  | Some v => <[key := v]> m
  | None => m
  end.

Definition overlay_of (resolve : string → string → string) (cwd : string)
    (options : CliOptions) (ambient : gmap string string) : gmap string string :=
  put_defined "CONFIG_SAVE_CREDENTIAL" (Boolean_toString <$> saveCredential options)
  (put_defined "CONFIG_PORT" (Number_toString <$> port options)
  (put_truthy "CONFIG_LOG_FILE" (logFile options) id
  (put_truthy "CONFIG_LOG_LEVEL" (logLevel options) id
  (put_defined "CONFIG_MAX_RETRIES" (Number_toString <$> maxRetries options)
  (put_defined "CONFIG_TIMEOUT" (Number_toString <$> timeout options)
  (put_truthy "CONFIG_CREDENTIAL_TYPES" (credentialTypes options) id
  (put_truthy "CONFIG_PRESENTATION_AUTHORIZE_URI" (presentationAuthorizeUri options) id
  (put_truthy "CONFIG_CREDENTIAL_ISSUER_URI" (credentialIssuerUri options) id
  (put_truthy "CONFIG_FILE_INI" (fileIni options) (resolve cwd) ambient))))))))).

(** Output events of a child, and the text they carry per stream. *)
Definition is_data (ev : ChildEvent) : Prop :=
  match ev with
  | StdoutData _ | StderrData _ => True
  | ErrorEvent _ | CloseEvent _ => False
  end.

Fixpoint stdout_of (events : list ChildEvent) : string :=
  match events with
  | [] => ""
  | StdoutData chunk :: rest => chunk +:+ stdout_of rest
  | _ :: rest => stdout_of rest
  end.

Fixpoint stderr_of (events : list ChildEvent) : string :=
  match events with
  | [] => ""
  | StderrData chunk :: rest => chunk +:+ stderr_of rest
  | _ :: rest => stderr_of rest
  end.

(** A child that prints on both streams and exits with code 0, and one
    that cannot be started. *)
Definition example_os (call : SpawnCall) : SpawnResult :=
  Spawned [StdoutData "1 passed"; StderrData "warning"; StdoutData ", 0 failed";
           CloseEvent (Some 0)].

Definition failing_os (call : SpawnCall) : SpawnResult :=
  Spawned [ErrorEvent (ErrorInstance "spawn pnpm ENOENT"); CloseEvent (Some (-2))].

Definition example_request : Request :=
  {| query := {[ "timeout" := JStr "5" ]}; body := JUndefined |}.

(** An input with three rejected values, one accepted, and what
    [normalizeCliOptions] returns for it. *)
Definition example_input : gmap string JsValue :=
  {[ "save-credential" := JStr "maybe"; "port" := JArr [];
     "timeout" := JStr "soon"; "maxRetries" := JStr "3" ]}.

Definition example_result : NormalizedOptionsResult :=
  {| options :=
       {| fileIni := None; credentialIssuerUri := None;
          presentationAuthorizeUri := None; credentialTypes := None;
          timeout := None; maxRetries := Some (number_of_Z 3);
          logLevel := None; logFile := None;
          port := None; saveCredential := None |};
     errors := [ "Invalid numeric value for timeout.";
                 "Invalid numeric value for port.";
                 "Invalid boolean value for save-credential." ] |}.

(** Concrete inputs for the examples. *)
Definition no_options : CliOptions :=
  {| fileIni := None; credentialIssuerUri := None;
     presentationAuthorizeUri := None; credentialTypes := None;
     timeout := None; maxRetries := None; logLevel := None; logFile := None;
     port := None; saveCredential := None |}.

Definition example_process : Process :=
  {| process_heap := [ {[ "PATH" := "/usr/bin"; "CONFIG_PORT" := "8080" ]} ];
     process_env := 0%nat;
     process_cwd := "/home/wct" |}.

Definition example_options : CliOptions :=
  {| fileIni := Some "conf/a.ini"; credentialIssuerUri := Some "";
     presentationAuthorizeUri := None; credentialTypes := Some "pid,mdl";
     timeout := Some (number_of_Z 30); maxRetries := None;
     logLevel := Some "DEBUG"; logFile := None;
     port := None; saveCredential := Some false |}.

(** *** Further vocabulary *)

(** The six options coerced with [coerceString]. *)
Definition string_keys : list OptionKey :=
  [ K_fileIni; K_credentialIssuerUri; K_presentationAuthorizeUri;
    K_credentialTypes; K_logLevel; K_logFile ].

(** Every key [getRawValue] is asked for by [normalizeCliOptions]. *)
Definition all_aliases : list string :=
  [ "fileIni"; "file-ini"; "credentialIssuerUri"; "credential-issuer-uri";
    "presentationAuthorizeUri"; "presentation-authorize-uri";
    "credentialTypes"; "credential-types"; "timeout";
    "maxRetries"; "max-retries"; "logLevel"; "log-level";
    "logFile"; "log-file"; "port"; "saveCredential"; "save-credential" ].

(** A raw value of the boolean option that is rejected. *)
Definition rejected_boolean (value : JsValue) : Prop :=
  match value with
  | JUndefined | JNull | JBool _ => False
  | JStr s => toLowerCase (trim s) ∉ ["true"; "1"; "yes"; "false"; "0"; "no"]
  | JNum _ | JArr _ | JObj _ => True
  end.

(** A typed record as a JSON object under the camel-case names: a present
    field becomes a property, an absent one is left out. *)
Definition put_property (key : string) (v : option JsValue)
    (m : gmap string JsValue) : gmap string JsValue :=
  match v with
  | Some v => <[key := v]> m
  | None => m
  end.

Definition to_json (o : CliOptions) : gmap string JsValue :=
  put_property "fileIni" (JStr <$> fileIni o)
  (put_property "credentialIssuerUri" (JStr <$> credentialIssuerUri o)
  (put_property "presentationAuthorizeUri" (JStr <$> presentationAuthorizeUri o)
  (put_property "credentialTypes" (JStr <$> credentialTypes o)
  (put_property "timeout" (JNum <$> timeout o)
  (put_property "maxRetries" (JNum <$> maxRetries o)
  (put_property "logLevel" (JStr <$> logLevel o)
  (put_property "logFile" (JStr <$> logFile o)
  (put_property "port" (JNum <$> port o)
  (put_property "saveCredential" (JBool <$> saveCredential o) ∅))))))))).

(** The JSON rendering of a field, read back through the aliases. *)
Definition json_field (k : OptionKey) (o : CliOptions) : option JsValue :=
  match k with
  | K_fileIni => JStr <$> fileIni o
  | K_credentialIssuerUri => JStr <$> credentialIssuerUri o
  | K_presentationAuthorizeUri => JStr <$> presentationAuthorizeUri o
  | K_credentialTypes => JStr <$> credentialTypes o
  | K_timeout => JNum <$> timeout o
  | K_maxRetries => JNum <$> maxRetries o
  | K_logLevel => JStr <$> logLevel o
  | K_logFile => JStr <$> logFile o
  | K_port => JNum <$> port o
  | K_saveCredential => JBool <$> saveCredential o
  end.

(** No numeric field holds NaN. *)
Definition numbers_valid (o : CliOptions) : Prop :=
  timeout o ≠ Some S754_nan ∧ maxRetries o ≠ Some S754_nan
  ∧ port o ≠ Some S754_nan.

(** The options in the order of the record, and the names of the methods. *)
Definition all_keys : list OptionKey :=
  [ K_fileIni; K_credentialIssuerUri; K_presentationAuthorizeUri;
    K_credentialTypes; K_timeout; K_maxRetries; K_logLevel; K_logFile;
    K_port; K_saveCredential ].

Definition method_name (m : Method) : string :=
  match m with
  | GET => "GET"
  | POST => "POST"
  end.

(** Two paths spelled alike: the same characters up to the case of the
    letters A-Z. *)
Fixpoint same_spelling (p q : string) : bool :=
  match p, q with
  | EmptyString, EmptyString => true
  | String c p', String d q' =>
      Ascii.eqb (fold_case c) (fold_case d) && same_spelling p' q'
  | _, _ => false
  end.

(** The variable each option is written to by [setEnvFromOptions]. *)
Definition variable_of (k : OptionKey) : string :=
  match k with
  | K_fileIni => "CONFIG_FILE_INI"
  | K_credentialIssuerUri => "CONFIG_CREDENTIAL_ISSUER_URI"
  | K_presentationAuthorizeUri => "CONFIG_PRESENTATION_AUTHORIZE_URI"
  | K_credentialTypes => "CONFIG_CREDENTIAL_TYPES"
  | K_timeout => "CONFIG_TIMEOUT"
  | K_maxRetries => "CONFIG_MAX_RETRIES"
  | K_logLevel => "CONFIG_LOG_LEVEL"
  | K_logFile => "CONFIG_LOG_FILE"
  | K_port => "CONFIG_PORT"
  | K_saveCredential => "CONFIG_SAVE_CREDENTIAL"
  end.

(** What a request's non-empty string for an option becomes in the
    environment of the child. *)
Definition variable_text (resolve : string → string → string) (cwd : string)
    (k : OptionKey) (s : string) : string :=
  match k with
  | K_fileIni => resolve cwd s
  | K_timeout | K_maxRetries | K_port => Number_toString (Number_parseInt s 10)
  | K_saveCredential => Boolean_toString (has truthyValues (toLowerCase (trim s)))
  | _ => s
  end.

(** A child that prints and never ends, and a command that fails. *)
Definition silent_os (call : SpawnCall) : SpawnResult :=
  Spawned [StdoutData "running"].

Definition failing_exec (call : ExecCall) : ExecResult :=
  ExecThrew (ErrorInstance "Command failed: pnpm test:issuance").

(** The options of [example_request], and an input that cannot be
    converted. *)
Definition example_request_options : CliOptions :=
  {| fileIni := None; credentialIssuerUri := None;
     presentationAuthorizeUri := None; credentialTypes := None;
     timeout := Some (number_of_Z 5); maxRetries := None;
     logLevel := None; logFile := None;
     port := None; saveCredential := None |}.

Definition unconvertible_input : gmap string JsValue :=
  {[ "logLevel" := JArr [JObj [("toString", JNum (number_of_Z 1))]] ]}.

(** The command line [--timeout abc]. *)
Definition example_flags : Flags :=
  {| file_ini := None; credential_issuer_uri := None;
     presentation_authorize_uri := None; credential_types := None;
     timeout_text := Some "abc"; max_retries_text := None;
     log_level := None; log_file := None; port_text := None;
     save_credential := false |}.

(* ===================================================================== *)
(** ** The built-in functions on examples *)
(* ===================================================================== *)

Example Number_toString_examples :
  map Number_toString
    [ number_of_Z 30; number_of_Z (-1); number_of_Z 0; S754_zero true;
      number_of_dyadic 7 (-1); number_of_dyadic 3602879701896397 (-55);
      number_of_Z (10 ^ 20); number_of_Z (10 ^ 21);
      number_of_Z 123456789012345680000; number_of_Z (2 ^ 60);
      number_of_dyadic 1 (-20); number_of_dyadic 1 (-1074);
      SFmax_float prec emax; S754_nan; S754_infinity true ]
  = [ "30"; "-1"; "0"; "0"; "3.5"; "0.1"; "100000000000000000000"; "1e+21";
      "123456789012345680000"; "1152921504606847000";
      "9.5367431640625e-7"; "5e-324"; "1.7976931348623157e+308";
      "NaN"; "-Infinity" ].
Proof. vm_compute. reflexivity. Qed.

(** Two shortest candidates equally close: the even one is printed. *)
Example Number_toString_ties :
  map Number_toString
    [ number_of_dyadic (2 ^ 52 + 1) (-2); number_of_dyadic (2 ^ 52 + 3) (-2);
      number_of_dyadic (2 ^ 52 + 5) (-2) ]
  = [ "1125899906842624.2"; "1125899906842624.8"; "1125899906842625.2" ].
Proof. vm_compute. reflexivity. Qed.

Example Number_parseInt_examples :
  map (fun s => Number_toString (Number_parseInt s 10))
    [ "30"; "12abc"; "3.9"; "  -42"; "+7"; "-0"; "abc"; ""; "- 5"; "0x10";
      "1e3"; "9007199254740993" ]
  = [ "30"; "12"; "3"; "-42"; "7"; "0"; "NaN"; "NaN"; "NaN"; "0"; "1";
      "9007199254740992" ]
  ∧ map (fun radix => Number_toString (Number_parseInt "0x1f" radix)) [0; 16; 10; 37]
    = [ "31"; "31"; "0"; "NaN" ].
Proof. vm_compute. split; reflexivity. Qed.

Example string_method_examples :
  trim "  Yes please  " = "Yes please"
  ∧ toLowerCase "  YES " = "  yes "
  ∧ join "," ["a"; "b"; "c"] = "a,b,c"
  ∧ hyphenate "presentationAuthorizeUri" = "presentation-authorize-uri".
Proof. vm_compute. repeat split; reflexivity. Qed.

Example ToString_examples :
  map ToString
    [ JUndefined; JNull; JBool true; JNum (number_of_dyadic 7 (-1)); JStr "x";
      JArr [JStr "a"; JNull; JArr [JUndefined; JNum (number_of_Z 3)]];
      JObj [("a", JNull)]; JObj [("toString", JStr "x")] ]
  = [ Normal "undefined"; Normal "null"; Normal "true"; Normal "3.5"; Normal "x";
      Normal "a,,,3"; Normal "[object Object]"; Throw cannot_convert ].
Proof. vm_compute. reflexivity. Qed.

Example posix_resolve_examples :
  map (posix_resolve "/home/wct")
    [ "config.ini"; "/etc/x.ini"; "../a/./b//c/"; "../../../x"; "a/../.." ]
  = [ "/home/wct/config.ini"; "/etc/x.ini"; "/home/a/b/c"; "/x"; "/home" ].
Proof. vm_compute. reflexivity. Qed.

(* ===================================================================== *)
(** ** Numbers: rounding an integer never gives NaN *)
(* ===================================================================== *)

Section rounding_facts.

Lemma shr_1_nonneg mrs : 0 <= shr_m mrs → 0 <= shr_m (shr_1 mrs).
Proof.
  destruct mrs as [m r s]; simpl.
  destruct m as [|[q|q|]|[q|q|]]; simpl; lia.
Qed.

Lemma iter_pos_shr_1_nonneg n mrs :
  0 <= shr_m mrs → 0 <= shr_m (SpecFloat.iter_pos shr_1 n mrs).
Proof.
  revert mrs; induction n as [n IH|n IH|]; intros mrs Hm; simpl.
  - apply IH, IH, shr_1_nonneg, Hm.
  - apply IH, IH, Hm.
  - apply shr_1_nonneg, Hm.
Qed.

Lemma shr_fexp_nonneg m e l :
  0 <= m → 0 <= shr_m (fst (shr_fexp prec emax m e l)).
Proof.
  intros Hm. unfold shr_fexp, shr.
  assert (Hrec : 0 <= shr_m (shr_record_of_loc m l))
    by (destruct l as [|[]]; simpl; exact Hm).
  destruct (fexp prec emax (Zdigits2 m + e) - e); simpl; try exact Hrec.
  apply iter_pos_shr_1_nonneg, Hrec.
Qed.

Lemma round_nearest_even_nonneg m l : 0 <= m → 0 <= round_nearest_even m l.
Proof.
  intros Hm. destruct l as [|[]]; simpl; try lia.
  destruct (Z.even m); lia.
Qed.

Lemma binary_round_aux_not_nan sx mx ex lx :
  0 <= mx → Number_isNaN (binary_round_aux prec emax sx mx ex lx) = false.
Proof.
  intros Hm. unfold binary_round_aux.
  pose proof (shr_fexp_nonneg mx ex lx Hm) as H1.
  destruct (shr_fexp prec emax mx ex lx) as [mrs' e']; simpl in H1.
  pose proof (shr_fexp_nonneg _ e' loc_Exact
                (round_nearest_even_nonneg _ (loc_of_shr_record mrs') H1)) as H2.
  destruct (shr_fexp prec emax _ e' loc_Exact) as [mrs'' e'']; simpl in H2.
  destruct (shr_m mrs'') as [|q|q]; simpl; try reflexivity.
  - destruct (e'' <=? emax - prec); reflexivity.
  - lia.
Qed.

Lemma number_of_dyadic_not_nan m e : Number_isNaN (number_of_dyadic m e) = false.
Proof.
  unfold number_of_dyadic, binary_normalize, binary_round.
  destruct m as [|q|q]; try reflexivity;
    destruct (shl_align q e _) as [mz ez]; apply binary_round_aux_not_nan; lia.
Qed.

Lemma number_of_Z_not_nan z : Number_isNaN (number_of_Z z) = false.
Proof. apply number_of_dyadic_not_nan. Qed.

Lemma integer_number_not_nan negative n :
  Number_isNaN (integer_number negative n) = false.
Proof.
  unfold integer_number. destruct (n =? 0); [reflexivity|].
  apply number_of_Z_not_nan.
Qed.

End rounding_facts.

(* ===================================================================== *)
(** ** Numbers: integers below 2^53 are represented exactly *)
(* ===================================================================== *)

Section exact_integers.

Lemma digits2_pos_size q : digits2_pos q = Pos.size q.
Proof. induction q; simpl; congruence. Qed.

Lemma digits2_pos_shift q k :
  digits2_pos (Pos.iter xO q k) = (digits2_pos q + k)%positive.
Proof.
  induction k as [|k IH] using Pos.peano_ind.
  - simpl. lia.
  - rewrite Pos.iter_succ. simpl. rewrite IH. lia.
Qed.

Lemma Zpos_shift q k : Zpos (Pos.iter xO q k) = Zpos q * 2 ^ Zpos k.
Proof.
  induction k as [|k IH] using Pos.peano_ind.
  - simpl. lia.
  - rewrite Pos.iter_succ, Pos2Z.inj_succ, Z.pow_succ_r by lia.
    rewrite Pos2Z.inj_xO, IH. ring.
Qed.

Lemma digits2_pos_bound q : Zpos q < 2 ^ 53 → Zpos (digits2_pos q) <= 53.
Proof.
  intros Hq. rewrite digits2_pos_size.
  pose proof (Pos.size_le q) as Hle.
  destruct (Z_le_gt_dec (Zpos (Pos.size q)) 53) as [|Hgt]; [assumption|exfalso].
  assert (Hle' : Zpos (2 ^ Pos.size q) <= Zpos q~0) by (apply Pos2Z.pos_le_pos, Hle).
  rewrite Pos2Z.inj_pow in Hle'.
  assert (2 ^ 54 <= 2 ^ Zpos (Pos.size q)) by (apply Z.pow_le_mono_r; lia).
  change (2 ^ 54) with (2 * 2 ^ 53) in *. lia.
Qed.

(** A 53-bit mantissa with an exponent in range is kept as it is. *)
Lemma binary_round_aux_canonical sx mz ez :
  Zpos (digits2_pos mz) = 53 → -1074 <= ez <= 971 →
  binary_round_aux prec emax sx (Zpos mz) ez loc_Exact = S754_finite sx mz ez.
Proof.
  intros Hd He.
  assert (Hshr : ∀ m, m = Zpos mz →
            shr_fexp prec emax m ez loc_Exact
            = ({| shr_m := Zpos mz; shr_r := false; shr_s := false |}, ez)).
  { intros m ->. unfold shr_fexp, fexp, emin, prec, emax. simpl Zdigits2.
    rewrite Hd. replace (Z.max (53 + ez - 53) (3 - 1024 - 53) - ez) with 0 by lia.
    reflexivity. }
  unfold binary_round_aux. rewrite (Hshr _ eq_refl). cbn [shr_m loc_of_shr_record round_nearest_even].
  rewrite (Hshr _ eq_refl). cbn [shr_m].
  unfold prec, emax. destruct (Z.leb_spec ez (1024 - 53)); [reflexivity|lia].
Qed.

Lemma binary_round_exact sx q :
  Zpos q < 2 ^ 53 →
  ∃ mz ez, binary_round prec emax sx q 0 = S754_finite sx mz ez
           ∧ -52 <= ez <= 0 ∧ Zpos mz = Zpos q * 2 ^ (- ez).
Proof.
  intros Hq. pose proof (digits2_pos_bound q Hq) as Hd.
  unfold binary_round, shl_align, fexp, emin, prec, emax.
  replace (Z.max (Zpos (digits2_pos q) + 0 - 53) (3 - 1024 - 53) - 0)
    with (Zpos (digits2_pos q) - 53) by lia.
  replace (Z.max (Zpos (digits2_pos q) + 0 - 53) (3 - 1024 - 53))
    with (Zpos (digits2_pos q) - 53) by lia.
  destruct (Zpos (digits2_pos q) - 53) as [|k|k] eqn:Hk; try lia.
  - exists q, 0. split; [|split; [lia|simpl; lia]].
    apply binary_round_aux_canonical; lia.
  - exists (Pos.iter xO q k), (Zneg k). split; [|split].
    + apply binary_round_aux_canonical; [|lia].
      rewrite digits2_pos_shift. lia.
    + lia.
    + rewrite Zpos_shift. reflexivity.
Qed.

Lemma integer_number_exact negative n :
  0 <= n < 2 ^ 53 →
  integer_value (integer_number negative n) = Some (if negative then - n else n).
Proof.
  intros Hn. unfold integer_number.
  destruct (Z.eqb_spec n 0) as [->|Hne]; [destruct negative; reflexivity|].
  destruct n as [|q|q]; try lia.
  assert (Hq : Zpos q < 2 ^ 53) by lia.
  destruct (binary_round_exact negative q Hq) as (mz & ez & Hround & Hez & Hmz).
  assert (Hnum : number_of_Z (if negative then - Zpos q else Zpos q)
                 = S754_finite negative mz ez).
  { destruct negative; exact Hround. }
  rewrite Hnum. unfold integer_value.
  assert (Hpow : 0 < 2 ^ (- ez)) by (apply Z.pow_pos_nonneg; lia).
  destruct (Z.leb_spec 0 ez) as [Hz|Hz].
  - assert (ez = 0) as -> by lia. simpl in *. f_equal.
    destruct negative; lia.
  - rewrite Hmz, Z.mod_mul, Z.div_mul by lia. simpl.
    destruct negative; reflexivity.
Qed.

End exact_integers.

(* ===================================================================== *)
(** ** [Number.parseInt] in radix 10 *)
(* ===================================================================== *)

Section parseInt_facts.

Ltac by_char c := destruct c as [[] [] [] [] [] [] [] []]; vm_compute; reflexivity.

Ltac by_digit d H :=
  assert (d = 0 ∨ d = 1 ∨ d = 2 ∨ d = 3 ∨ d = 4 ∨ d = 5 ∨ d = 6 ∨ d = 7
          ∨ d = 8 ∨ d = 9) as Hcases by lia;
  clear H; repeat destruct Hcases as [->|Hcases]; try subst d; reflexivity.

Lemma radix_digit_10 c :
  radix_digit 10 c
  = if is_decimal_digit c then Some (Z.of_N (N_of_ascii c) - 48) else None.
Proof. by_char c. Qed.

Lemma radix_digit_digit_char d :
  0 <= d <= 9 → radix_digit 10 (digit_char d) = Some d.
Proof. intros H. by_digit d H. Qed.

Lemma digit_char_not_whitespace d :
  0 <= d <= 9 → is_js_whitespace (digit_char d) = false.
Proof. intros H. by_digit d H. Qed.

Lemma digit_char_not_sign d :
  0 <= d <= 9 →
  Ascii.eqb (digit_char d) "-" = false ∧ Ascii.eqb (digit_char d) "+" = false.
Proof.
  intros H.
  assert (d = 0 ∨ d = 1 ∨ d = 2 ∨ d = 3 ∨ d = 4 ∨ d = 5 ∨ d = 6 ∨ d = 7
          ∨ d = 8 ∨ d = 9) as Hcases by lia.
  clear H; repeat destruct Hcases as [->|Hcases]; try subst d; split; reflexivity.
Qed.

Lemma append_empty (s t : string) : s +:+ t = "" → s = "" ∧ t = "".
Proof. destruct s; simpl; [tauto|discriminate]. Qed.

Lemma trimStart_app_whitespace ws t :
  all_chars is_js_whitespace ws = true → trimStart (ws +:+ t) = trimStart t.
Proof.
  induction ws as [|c ws IH]; simpl; [reflexivity|].
  intros [Hc Hws]%andb_prop. rewrite Hc. apply IH, Hws.
Qed.

Lemma digits_value_nonneg ds :
  Forall (fun d => 0 <= d <= 9) ds → 0 <= digits_value ds.
Proof.
  induction 1 as [|d ds Hd _ IH]; simpl; [lia|].
  assert (0 <= 10 ^ Z.of_nat (length ds)) by (apply Z.pow_nonneg; lia).
  nia.
Qed.

Lemma read_digits_numeral ds rest count acc :
  Forall (fun d => 0 <= d <= 9) ds →
  starts_with_decimal_digit rest = false →
  read_digits 10 (digit_string ds +:+ rest) count acc
  = ((count + length ds)%nat, acc * 10 ^ Z.of_nat (length ds) + digits_value ds).
Proof.
  intros Hds Hrest. revert count acc.
  induction Hds as [|d ds Hd _ IH]; intros count acc; simpl.
  - replace (count + 0)%nat with count by lia.
    destruct rest as [|c r]; simpl; [f_equal; lia|].
    rewrite radix_digit_10. simpl in Hrest. rewrite Hrest. f_equal; lia.
  - rewrite (radix_digit_digit_char d Hd), IH. f_equal; [lia|].
    rewrite Nat2Z.inj_succ, Z.pow_succ_r by lia. ring.
Qed.

(** In radix 10 no prefix is stripped. *)
Lemma parseInt_radix_10 s :
  Number_parseInt s 10
  = let '(neg, body) :=
      match trimStart s with
      | String "-" r => (true, r)
      | String "+" r => (false, r)
      | trimmed => (false, trimmed)
      end in
    match read_digits 10 body O 0 with
    | (O, _) => S754_nan
    | (_, mathInt) =>
        if mathInt =? 0 then S754_zero neg
        else number_of_Z (if neg then - mathInt else mathInt)
    end.
Proof.
  unfold Number_parseInt. cbv zeta.
  destruct (trimStart s) as [|c r]; [reflexivity|].
  destruct c as [[] [] [] [] [] [] [] []]; reflexivity.
Qed.

Lemma parseInt_numeral ws sign ds rest :
  all_chars is_js_whitespace ws = true →
  sign ∈ ["-"; "+"; ""] →
  ds ≠ [] →
  Forall (fun d => 0 <= d <= 9) ds →
  starts_with_decimal_digit rest = false →
  Number_parseInt (ws +:+ sign +:+ digit_string ds +:+ rest) 10
  = integer_number (String.eqb sign "-") (digits_value ds).
Proof.
  intros Hws Hsign Hne Hds Hrest.
  destruct ds as [|d ds]; [congruence|]. clear Hne.
  pose proof (Forall_inv Hds) as Hd.
  pose proof (digit_char_not_whitespace d Hd) as Hnw.
  pose proof (digit_char_not_sign d Hd) as [Hm Hp].
  pose proof (read_digits_numeral (d :: ds) rest O 0 Hds Hrest) as Hread.
  rewrite parseInt_radix_10. rewrite trimStart_app_whitespace by exact Hws.
  assert (Hbody :
    match trimStart (sign +:+ digit_string (d :: ds) +:+ rest) with
    | String "-" r => (true, r)
    | String "+" r => (false, r)
    | trimmed => (false, trimmed)
    end = (String.eqb sign "-", digit_string (d :: ds) +:+ rest)).
  { rewrite !elem_of_cons in Hsign.
    destruct Hsign as [->|[->|[->|Hsign]]]; [| |simpl|by apply elem_of_nil in Hsign].
    - reflexivity.
    - reflexivity.
    - rewrite Hnw.
      destruct (digit_char d) as [b0 b1 b2 b3 b4 b5 b6 b7] eqn:Hc.
      destruct b0, b1, b2, b3, b4, b5, b6, b7; try reflexivity;
        simpl in Hm, Hp; discriminate. }
  rewrite Hbody, Hread. simpl length.
  unfold integer_number.
  replace (0 * 10 ^ Z.of_nat (S (length ds)) + digits_value (d :: ds))
    with (digits_value (d :: ds)) by ring.
  reflexivity.
Qed.

End parseInt_facts.

(* ===================================================================== *)
(** ** Option coercion (src/cli/options.ts) *)
(* ===================================================================== *)

Section coercion_facts.

Implicit Types (value : JsValue) (optionName s : string) (errors : list string).
Implicit Types (input : gmap string JsValue) (r : NormalizedOptionsResult).

Lemma coerceNumber_string s optionName errors :
  s ≠ "" →
  coerceNumber (JStr s) optionName errors
  = if negb (Number_isNaN (Number_parseInt s 10))
    then (Some (Number_parseInt s 10), errors)
    else (None, (errors ++ ["Invalid numeric value for " +:+ optionName +:+ "."])%list).
Proof. destruct s; [congruence|reflexivity]. Qed.

(** The coercions only push to [errors]: the result is the one on an empty
    array, and the new contents are the old ones followed by what the call
    pushes on an empty array. *)
Lemma coerceNumber_push value optionName errors :
  coerceNumber value optionName errors
  = (fst (coerceNumber value optionName []),
     (errors ++ snd (coerceNumber value optionName []))%list).
Proof.
  destruct value as [| |b|x|s|l|props];
    try (simpl; rewrite ?app_nil_r; reflexivity).
  - simpl. destruct (Number_isNaN x); simpl; rewrite ?app_nil_r; reflexivity.
  - destruct s as [|c s]; [simpl; rewrite app_nil_r; reflexivity|].
    rewrite !coerceNumber_string by discriminate.
    destruct (Number_isNaN _); simpl; rewrite ?app_nil_r; reflexivity.
Qed.

Lemma coerceBoolean_push value optionName errors :
  coerceBoolean value optionName errors
  = (fst (coerceBoolean value optionName []),
     (errors ++ snd (coerceBoolean value optionName []))%list).
Proof.
  destruct value as [| |b|x|s|l|props]; simpl;
    rewrite ?app_nil_r; try reflexivity.
  destruct (has truthyValues _); [simpl; rewrite app_nil_r; reflexivity|].
  destruct (has falsyValues _); simpl; rewrite ?app_nil_r; reflexivity.
Qed.

Lemma coerceNumber_pushed value optionName :
  snd (coerceNumber value optionName []) = []
  ∨ snd (coerceNumber value optionName [])
    = ["Invalid numeric value for " +:+ optionName +:+ "."].
Proof.
  destruct value as [| |b|x|s|l|props]; try (simpl; auto; fail).
  - simpl. destruct (Number_isNaN x); simpl; auto.
  - destruct s as [|c s]; [simpl; auto|].
    rewrite coerceNumber_string by discriminate.
    destruct (Number_isNaN _); simpl; auto.
Qed.

Lemma coerceBoolean_pushed value optionName :
  snd (coerceBoolean value optionName []) = []
  ∨ snd (coerceBoolean value optionName [])
    = ["Invalid boolean value for " +:+ optionName +:+ "."].
Proof.
  destruct value as [| |b|x|s|l|props]; simpl; auto.
  destruct (has truthyValues _); [simpl; auto|].
  destruct (has falsyValues _); simpl; auto.
Qed.

Local Abbreviation raw input k := (getRawValue input (optionAliases k)).

(** What a normal completion of [normalizeCliOptions] consists of. *)
Lemma normalizeCliOptions_Normal input r :
  normalizeCliOptions input = Normal r →
  coerceString (raw input K_fileIni) = Normal (fileIni (options r))
  ∧ coerceString (raw input K_credentialIssuerUri)
    = Normal (credentialIssuerUri (options r))
  ∧ coerceString (raw input K_presentationAuthorizeUri)
    = Normal (presentationAuthorizeUri (options r))
  ∧ coerceString (raw input K_credentialTypes) = Normal (credentialTypes (options r))
  ∧ coerceString (raw input K_logLevel) = Normal (logLevel (options r))
  ∧ coerceString (raw input K_logFile) = Normal (logFile (options r))
  ∧ timeout (options r) = fst (coerceNumber (raw input K_timeout) "timeout" [])
  ∧ maxRetries (options r)
    = fst (coerceNumber (raw input K_maxRetries) "max-retries" [])
  ∧ port (options r) = fst (coerceNumber (raw input K_port) "port" [])
  ∧ saveCredential (options r)
    = fst (coerceBoolean (raw input K_saveCredential) "save-credential" [])
  ∧ errors r
    = (snd (coerceNumber (raw input K_timeout) "timeout" [])
       ++ snd (coerceNumber (raw input K_maxRetries) "max-retries" [])
       ++ snd (coerceNumber (raw input K_port) "port" [])
       ++ snd (coerceBoolean (raw input K_saveCredential) "save-credential" []))%list.
Proof.
  intros H. unfold normalizeCliOptions in H. cbv zeta in H.
  destruct (coerceString (raw input K_fileIni)) as [s1|];
    cbn [mbind Completion_bind] in H; [|discriminate].
  destruct (coerceString (raw input K_credentialIssuerUri)) as [s2|];
    cbn [mbind Completion_bind] in H; [|discriminate].
  destruct (coerceString (raw input K_presentationAuthorizeUri)) as [s3|];
    cbn [mbind Completion_bind] in H; [|discriminate].
  destruct (coerceString (raw input K_credentialTypes)) as [s4|];
    cbn [mbind Completion_bind] in H; [|discriminate].
  destruct (coerceNumber (raw input K_timeout) "timeout" []) as [t e1].
  rewrite (coerceNumber_push (raw input K_maxRetries)) in H.
  destruct (coerceString (raw input K_logLevel)) as [s5|];
    cbn [mbind Completion_bind] in H; [|discriminate].
  destruct (coerceString (raw input K_logFile)) as [s6|];
    cbn [mbind Completion_bind] in H; [|discriminate].
  rewrite (coerceNumber_push (raw input K_port)) in H.
  rewrite (coerceBoolean_push (raw input K_saveCredential)) in H.
  injection H as <-. cbn [options errors fileIni credentialIssuerUri
    presentationAuthorizeUri credentialTypes timeout maxRetries logLevel
    logFile port saveCredential fst snd].
  rewrite <- !app_assoc. repeat split; reflexivity.
Qed.



Lemma pushed_sublist (pushed : list string) (message : string) :
  pushed = [] ∨ pushed = [message] → pushed `sublist_of` [message].
Proof. intros [->| ->]; [apply sublist_nil_l|reflexivity]. Qed.

End coercion_facts.

(* ===================================================================== *)
(** ** [String(...)] and option coercion return on JSON data *)
(* ===================================================================== *)

Section JsValue_induction.

Variable P : JsValue → Prop.
Hypothesis Hundefined : P JUndefined.
Hypothesis Hnull : P JNull.
Hypothesis Hbool : ∀ b, P (JBool b).
Hypothesis Hnum : ∀ x, P (JNum x).
Hypothesis Hstr : ∀ s, P (JStr s).
Hypothesis Harr : ∀ elements, Forall P elements → P (JArr elements).
Hypothesis Hobj : ∀ props, P (JObj props).

(** Induction on values that reaches the elements of arrays. *)
Fixpoint JsValue_induction (v : JsValue) : P v :=
  match v with
  | JUndefined => Hundefined
  | JNull => Hnull
  | JBool b => Hbool b
  | JNum x => Hnum x
  | JStr s => Hstr s
  | JArr elements =>
      Harr elements
        ((fix all (l : list JsValue) : Forall P l :=
            match l with
            | [] => List.Forall_nil P
            | x :: rest => List.Forall_cons P x rest (JsValue_induction x) (all rest)
            end) elements)
  | JObj props => Hobj props
  end.

End JsValue_induction.

Section totality.

Lemma mapM_Normal {A B : Type} (f : A → Completion B) (l : list A) :
  Forall (fun x => ∃ y, f x = Normal y) l → ∃ ys, mapM f l = Normal ys.
Proof.
  induction 1 as [|x l [y Hy] _ [ys Hys]].
  - exists []. reflexivity.
  - exists (y :: ys). cbn [mapM]. rewrite Hy. cbn [mbind Completion_bind].
    rewrite Hys. reflexivity.
Qed.

Lemma ToString_returns v : convertible v = true → ∃ s, ToString v = Normal s.
Proof.
  induction v as [| |b|x|s|elements IH|props] using JsValue_induction;
    intros Hv; try (eexists; reflexivity).
  - simpl in Hv. rewrite forallb_forall in Hv.
    assert (Hall : Forall (fun element => ∃ s,
              match element with
              | JUndefined | JNull => Normal ""
              | _ => ToString element
              end = Normal s) elements).
    { rewrite Forall_forall in *. intros element Hin.
      specialize (IH element Hin (Hv element (proj1 (list_elem_of_In _ _) Hin))).
      destruct element; try exact IH; eexists; reflexivity. }
    destruct (mapM_Normal _ _ Hall) as [strs Hstrs].
    exists (join "," strs). cbn [ToString]. rewrite Hstrs. reflexivity.
  - simpl in Hv. apply negb_true_iff in Hv. simpl. rewrite Hv.
    eexists; reflexivity.
Qed.

Lemma coerceString_returns v : convertible v = true → ∃ o, coerceString v = Normal o.
Proof.
  intros Hv. destruct v as [| |b|x|s|elements|props];
    try (eexists; reflexivity).
  - simpl in Hv. rewrite forallb_forall in Hv.
    assert (Hall : Forall (fun element => ∃ s, ToString element = Normal s) elements).
    { rewrite Forall_forall. intros element Hin.
      apply ToString_returns, Hv, list_elem_of_In, Hin. }
    destruct (mapM_Normal _ _ Hall) as [strs Hstrs].
    eexists. unfold coerceString. rewrite Hstrs. reflexivity.
  - destruct (ToString_returns (JObj props) Hv) as [s Hs].
    eexists. unfold coerceString. rewrite Hs. reflexivity.
Qed.

Lemma getRawValue_convertible (input : gmap string JsValue) aliases :
  (∀ key v, input !! key = Some v → convertible v = true) →
  convertible (getRawValue input aliases) = true.
Proof.
  intros Hinput. induction aliases as [|alias rest IH]; simpl; [reflexivity|].
  destruct (input !! alias) as [v|] eqn:Hv; [exact (Hinput _ _ Hv)|exact IH].
Qed.

(** On an input all of whose values convert to strings without throwing,
    [normalizeCliOptions] returns. *)
Lemma normalizeCliOptions_returns (input : gmap string JsValue) :
  (∀ key v, input !! key = Some v → convertible v = true) →
  ∃ r, normalizeCliOptions input = Normal r.
Proof.
  intros Hinput. unfold normalizeCliOptions. cbv zeta.
  repeat match goal with
  | |- context [coerceString (getRawValue input ?aliases)] =>
      let o := fresh "o" in
      let Ho := fresh "Ho" in
      destruct (coerceString_returns _ (getRawValue_convertible input aliases Hinput))
        as [o Ho];
      rewrite Ho; cbn [mbind Completion_bind]
  | |- context [coerceNumber ?v ?n ?e] => destruct (coerceNumber v n e)
  | |- context [coerceBoolean ?v ?n ?e] => destruct (coerceBoolean v n e)
  end.
  eexists. reflexivity.
Qed.

End totality.

(* ===================================================================== *)
(** ** Properties of option coercion *)
(* ===================================================================== *)

Section coercion_properties.

Implicit Types (value : JsValue) (optionName s : string) (errors : list string).
Implicit Types (input : gmap string JsValue) (r : NormalizedOptionsResult).

Local Abbreviation raw input k := (getRawValue input (optionAliases k)).





(** C9. The errors returned by [normalizeCliOptions] are a subsequence of
    the four messages in the order timeout, max-retries, port,
    save-credential: only these messages, in this order, each at most once,
    hence at most four.  The input is a finite map, which has no key order.
    The function returns whenever the values of the input convert to strings
    without throwing. *)
Theorem errors_ordered input :
  (∀ r,
     normalizeCliOptions input = Normal r →
     errors r `sublist_of` fallible_messages
     ∧ (length (errors r) ≤ 4)%nat
     ∧ NoDup (errors r))
  ∧ ((∀ key v, input !! key = Some v → convertible v = true) →
     ∃ r, normalizeCliOptions input = Normal r).
Proof.
  split; [|apply normalizeCliOptions_returns].
  intros r H. apply normalizeCliOptions_Normal in H.
  destruct H as (_ & _ & _ & _ & _ & _ & _ & _ & _ & _ & He).
  assert (Hsub : errors r `sublist_of` fallible_messages).
  { rewrite He.
    change fallible_messages with
      (["Invalid numeric value for " +:+ "timeout" +:+ "."]
       ++ ["Invalid numeric value for " +:+ "max-retries" +:+ "."]
       ++ ["Invalid numeric value for " +:+ "port" +:+ "."]
       ++ ["Invalid boolean value for " +:+ "save-credential" +:+ "."])%list.
    repeat apply sublist_app;
      apply pushed_sublist;
      first [apply coerceNumber_pushed | apply coerceBoolean_pushed]. }
  split; [exact Hsub|]. split.
  - apply sublist_length in Hsub. exact Hsub.
  - eapply sublist_NoDup; [|exact Hsub].
    unfold fallible_messages. repeat constructor;
      rewrite ?elem_of_cons, ?elem_of_nil; intros Hin;
      repeat destruct Hin as [Hin|Hin]; try discriminate; contradiction.
Qed.

(** C10, as the code has it.  A string made of optional whitespace, an
    optional sign, at least one decimal digit and a rest that does not
    continue the digits is coerced to the Number of the integer its digits
    denote, with the sign, and no error is pushed: ["12abc"] gives 12 and
    ["3.9"] gives 3.  That Number is the integer itself whenever the digits
    denote less than 2^53; beyond, it is the Number nearest to the integer:
    ["9007199254740993"] gives 2^53, and a one followed by 309 zeros gives
    Infinity.  A number other than NaN is returned as it is, whether or not
    it is an integer or positive: 3.5 and -1 are accepted for timeout,
    maxRetries and port. *)
Theorem numeric_prefix_and_passthrough :
  (∀ ws sign ds rest optionName errors,
     all_chars is_js_whitespace ws = true →
     sign ∈ ["-"; "+"; ""] →
     ds ≠ [] →
     Forall (fun d => 0 <= d <= 9) ds →
     starts_with_decimal_digit rest = false →
     coerceNumber (JStr (ws +:+ sign +:+ digit_string ds +:+ rest)) optionName errors
     = (Some (integer_number (String.eqb sign "-") (digits_value ds)), errors))
  ∧ (∀ negative n,
       0 <= n < 2 ^ 53 →
       integer_value (integer_number negative n)
       = Some (if negative then - n else n))
  ∧ coerceNumber (JStr "12abc") "timeout" [] = (Some (number_of_Z 12), [])
  ∧ coerceNumber (JStr "3.9") "timeout" [] = (Some (number_of_Z 3), [])
  ∧ (∀ x optionName errors,
       x ≠ S754_nan →
       coerceNumber (JNum x) optionName errors = (Some x, errors))
  ∧ (∃ r, normalizeCliOptions
            {[ "timeout" := JNum (number_of_dyadic 7 (-1));
               "maxRetries" := JNum (number_of_Z (-1));
               "port" := JNum (number_of_dyadic 7 (-1)) ]} = Normal r
          ∧ timeout (options r) = Some (number_of_dyadic 7 (-1))
          ∧ maxRetries (options r) = Some (number_of_Z (-1))
          ∧ port (options r) = Some (number_of_dyadic 7 (-1))
          ∧ errors r = [])
  ∧ map Number_toString
      [number_of_Z 12; number_of_Z 3; number_of_dyadic 7 (-1); number_of_Z (-1)]
    = ["12"; "3"; "3.5"; "-1"]
  ∧ coerceNumber (JStr "9007199254740993") "timeout" []
    = (Some (number_of_Z (2 ^ 53)), [])
  ∧ coerceNumber (JStr ("1" +:+ str_repeat "0" 309)) "timeout" []
    = (Some (S754_infinity false), []).
Proof.
  split; [|split; [exact integer_number_exact|split; [|split; [|split; [|split;
    [|split; [|split]]]]]]].
  - intros ws sign ds rest optionName errors Hws Hsign Hne Hds Hrest.
    pose proof (parseInt_numeral ws sign ds rest Hws Hsign Hne Hds Hrest) as Hp.
    rewrite coerceNumber_string.
    + rewrite Hp, integer_number_not_nan. reflexivity.
    + intros Hempty.
      apply append_empty in Hempty as [_ Hempty].
      apply append_empty in Hempty as [_ Hempty].
      apply append_empty in Hempty as [Hempty _].
      destruct ds; [congruence|discriminate].
  - vm_compute. reflexivity.
  - vm_compute. reflexivity.
  - intros x optionName errors Hx. simpl.
    destruct x; try reflexivity. congruence.
  - eexists. split; [vm_compute; reflexivity|]. repeat split; vm_compute; reflexivity.
  - vm_compute. reflexivity.
  - vm_compute. reflexivity.
  - vm_compute. reflexivity.
Qed.

(** The claim C10 as stated fails on long numerals: the digits of
    ["9007199254740993"] denote 2^53 + 1 and the Number returned is 2^53,
    an integer other than the one the digits denote; so it is not true that
    the value returned is, for every numeral, the integer of its digits. *)
Lemma long_numeral_rounded :
  let ds := [9; 0; 0; 7; 1; 9; 9; 2; 5; 4; 7; 4; 0; 9; 9; 3] in
  digit_string ds = "9007199254740993"
  ∧ digits_value ds = 2 ^ 53 + 1
  ∧ (∃ x, coerceNumber (JStr (digit_string ds)) "timeout" [] = (Some x, [])
          ∧ integer_value x = Some (2 ^ 53))
  ∧ ¬ (∀ ds optionName errors,
         ds ≠ [] →
         Forall (fun d => 0 <= d <= 9) ds →
         ∃ x, coerceNumber (JStr (digit_string ds)) optionName errors
              = (Some x, errors)
              ∧ integer_value x = Some (digits_value ds)).
Proof.
  intros ds.
  assert (Hrun : coerceNumber (JStr (digit_string ds)) "timeout" []
                 = (Some (number_of_Z (2 ^ 53)), []))
    by (vm_compute; reflexivity).
  assert (Hvalue : integer_value (number_of_Z (2 ^ 53)) = Some (2 ^ 53))
    by (vm_compute; reflexivity).
  split; [reflexivity|]. split; [reflexivity|].
  split; [exists (number_of_Z (2 ^ 53)); split; [exact Hrun|exact Hvalue]|].
  intros Hclaim.
  destruct (Hclaim ds "timeout" []) as (x & Hx & Hinteger).
  - discriminate.
  - repeat (constructor; [lia|]). constructor.
  - rewrite Hrun in Hx.
    assert (Hsame : x = number_of_Z (2 ^ 53)) by congruence.
    rewrite Hsame, Hvalue in Hinteger.
    injection Hinteger as Hinteger. vm_compute in Hinteger. discriminate Hinteger.
Qed.

End coercion_properties.

(* ===================================================================== *)
(** ** The environment projector (setEnvFromOptions) *)
(* ===================================================================== *)

Section projector_facts.

Variable resolve : string → string → string.

Implicit Types (p : Process) (m ambient : gmap string string).
Implicit Types (h : list (gmap string string)) (key : string).

Lemma assign_last p h m key v :
  assign (length h) key v (with_heap p (h ++ [m]))
  = with_heap p (h ++ [<[key := v]> m]).
Proof.
  unfold assign, with_heap; simpl. f_equal.
  replace (length h) with (length h + 0)%nat by lia.
  rewrite alter_app_r. reflexivity.
Qed.

Lemma if_truthy_last p h m key field (f : string → string) :
  if_truthy field (fun v => assign (length h) key (f v)) (with_heap p (h ++ [m]))
  = with_heap p (h ++ [put_truthy key field f m]).
Proof.
  destruct field as [[|c s]|]; simpl; try reflexivity. apply assign_last.
Qed.

Lemma if_defined_last {A : Type} p h m key (field : option A) (f : A → string) :
  if_defined field (fun v => assign (length h) key (f v)) (with_heap p (h ++ [m]))
  = with_heap p (h ++ [put_defined key (f <$> field) m]).
Proof.
  destruct field as [x|]; simpl; try reflexivity. apply assign_last.
Qed.

(** The call allocates one object after the existing ones and leaves every
    existing object as it is; the new object holds [overlay_of]. *)
Lemma setEnvFromOptions_overlay options p :
  setEnvFromOptions resolve options p
  = (length (process_heap p),
     with_heap p
       (process_heap p
        ++ [overlay_of resolve (process_cwd p) options (deref p (process_env p))])).
Proof.
  unfold setEnvFromOptions, spread_process_env, overlay_of.
  cbn [process_cwd with_heap].
  rewrite (if_truthy_last p _ _ "CONFIG_FILE_INI" _ (resolve (process_cwd p))).
  rewrite !(if_truthy_last p _ _ _ _ id).
  rewrite !if_defined_last.
  rewrite !(if_truthy_last p _ _ _ _ id).
  rewrite !if_defined_last.
  reflexivity.
Qed.

Lemma deref_overlay options p :
  let run := setEnvFromOptions resolve options p in
  deref (snd run) (fst run)
  = overlay_of resolve (process_cwd p) options (deref p (process_env p)).
Proof.
  rewrite setEnvFromOptions_overlay. unfold deref; simpl.
  rewrite lookup_app_r by lia. rewrite Nat.sub_diag. reflexivity.
Qed.

Lemma lookup_put_truthy_eq key field (f : string → string) m :
  put_truthy key field f m !! key
  = match field with
    | Some (String _ _ as s) => Some (f s)
    | _ => m !! key
    end.
Proof.
  destruct field as [[|c s]|]; simpl; try reflexivity.
  apply lookup_insert_eq.
Qed.

Lemma lookup_put_truthy_ne key field (f : string → string) m k :
  key ≠ k → put_truthy key field f m !! k = m !! k.
Proof.
  intros Hne. destruct field as [[|c s]|]; simpl; try reflexivity.
  apply lookup_insert_ne, Hne.
Qed.

Lemma lookup_put_defined_eq key field m :
  put_defined key field m !! key
  = match field with
    | Some v => Some v
    | None => m !! key
    end.
Proof.
  destruct field as [v|]; simpl; try reflexivity. apply lookup_insert_eq.
Qed.

Lemma lookup_put_defined_ne key field m k :
  key ≠ k → put_defined key field m !! k = m !! k.
Proof.
  intros Hne. destruct field as [v|]; simpl; try reflexivity.
  apply lookup_insert_ne, Hne.
Qed.

(** The variable [k] in the returned object: the updates of the other
    variables are skipped. *)
Ltac lookup_overlay tac :=
  unfold overlay_of;
  repeat first [ rewrite lookup_put_defined_ne by tac
               | rewrite lookup_put_truthy_ne by tac
               | rewrite lookup_put_defined_eq
               | rewrite lookup_put_truthy_eq ].

Lemma overlay_string_field cwd options ambient key field f :
  (key, field, f) ∈ string_mapping resolve cwd options →
  overlay_of resolve cwd options ambient !! key
  = match field with
    | Some (String _ _ as s) => Some (f s)
    | _ => ambient !! key
    end.
Proof.
  unfold string_mapping. rewrite !elem_of_cons, elem_of_nil.
  intros [H|[H|[H|[H|[H|[H|[]]]]]]]; injection H as -> -> ->;
    lookup_overlay discriminate;
    repeat match goal with
           | |- context [match ?field with _ => _ end] => destruct field as [[|??]|]
           end; reflexivity.
Qed.

Lemma overlay_scalar_field cwd options ambient key field :
  (key, field) ∈ scalar_mapping options →
  overlay_of resolve cwd options ambient !! key
  = match field with
    | Some v => Some v
    | None => ambient !! key
    end.
Proof.
  unfold scalar_mapping. rewrite !elem_of_cons, elem_of_nil.
  intros [H|[H|[H|[H|[]]]]]; injection H as -> ->;
    lookup_overlay discriminate;
    repeat match goal with
           | |- context [match ?field with _ => _ end] => destruct field as [[|??]|]
           end; reflexivity.
Qed.

Lemma overlay_other_key cwd options ambient key :
  key ∉ config_keys →
  overlay_of resolve cwd options ambient !! key = ambient !! key.
Proof.
  intros Hkey.
  lookup_overlay ltac:(intros <-; apply Hkey; unfold config_keys;
                       rewrite !elem_of_cons; tauto).
  reflexivity.
Qed.

End projector_facts.

Section projector_properties.

Variable resolve : string → string → string.

Implicit Types (p q : Process) (options : CliOptions) (key : string).

(** C1, as the code has it.  The returned object holds, for each option of
    the fixed mapping: for a string option that is present and not empty,
    its variable with the string (for fileIni, resolved against the working
    directory); for a numeric or boolean option that is present, its variable
    with the stringified value (["true"] or ["false"] for the boolean); for
    an option that is absent, and for a string option that is the empty
    string, the ambient value of its variable, if any.  The ten variables of
    the mapping are distinct, and no other variable differs from the ambient
    environment. *)
Theorem env_projection options p :
  let ambient := deref p (process_env p) in
  let run := setEnvFromOptions resolve options p in
  let overlay := deref (snd run) (fst run) in
  (∀ key field f,
     (key, field, f) ∈ string_mapping resolve (process_cwd p) options →
     (∀ s, field = Some s → s ≠ "" → overlay !! key = Some (f s))
     ∧ (field = None ∨ field = Some "" → overlay !! key = ambient !! key))
  ∧ (∀ key field,
       (key, field) ∈ scalar_mapping options →
       (∀ v, field = Some v → overlay !! key = Some v)
       ∧ (field = None → overlay !! key = ambient !! key))
  ∧ (∀ key, key ∉ config_keys → overlay !! key = ambient !! key)
  ∧ (((fun entry => fst (fst entry)) <$> string_mapping resolve (process_cwd p) options)
      ++ (fst <$> scalar_mapping options))%list ≡ₚ config_keys
  ∧ NoDup config_keys
  ∧ (∀ b, Boolean_toString b = if b then "true" else "false").
Proof.
  intros ambient run overlay.
  assert (Hoverlay : overlay = overlay_of resolve (process_cwd p) options ambient)
    by apply deref_overlay.
  rewrite Hoverlay.
  split; [|split; [|split; [|split; [|split]]]].
  - intros key field f Hin.
    rewrite (overlay_string_field _ _ _ _ _ _ _ Hin). split.
    + intros s -> Hs. destruct s; [congruence|reflexivity].
    + intros [-> | ->]; reflexivity.
  - intros key field Hin.
    rewrite (overlay_scalar_field _ _ _ _ _ _ Hin). split.
    + intros v ->. reflexivity.
    + intros ->. reflexivity.
  - apply overlay_other_key.
  - unfold string_mapping, scalar_mapping, config_keys. simpl.
    do 4 apply Permutation_skip.
    apply (Permutation_app_tail [_; _] (Permutation_app_comm [_; _] [_; _])).
  - unfold config_keys. repeat constructor;
      rewrite ?elem_of_cons, ?elem_of_nil; intros Hin;
      repeat destruct Hin as [Hin|Hin]; try discriminate; contradiction.
  - reflexivity.
Qed.

(** C7. The projector allocates a new object and mutates no existing one,
    the ambient environment included; variables outside the mapping are
    carried over; an absent option leaves its variable as the ambient
    environment has it (neither added nor removed); the contents of the
    result depend only on the options, the ambient variables and the working
    directory; a second call returns an object with the same contents and
    does not touch the first. *)
Theorem env_projection_frame options p :
  (process_env p < length (process_heap p))%nat →
  let ambient := deref p (process_env p) in
  let run := setEnvFromOptions resolve options p in
  let env := fst run in
  let p' := snd run in
  process_heap p !! env = None
  ∧ env ≠ process_env p
  ∧ (∀ l obj, process_heap p !! l = Some obj → process_heap p' !! l = Some obj)
  ∧ process_env p' = process_env p
  ∧ process_cwd p' = process_cwd p
  ∧ deref p' (process_env p') = ambient
  ∧ (∀ key, key ∉ config_keys → deref p' env !! key = ambient !! key)
  ∧ (∀ key f,
       (key, None, f) ∈ string_mapping resolve (process_cwd p) options →
       deref p' env !! key = ambient !! key)
  ∧ (∀ key,
       (key, None) ∈ scalar_mapping options →
       deref p' env !! key = ambient !! key)
  ∧ (∀ q,
       deref q (process_env q) = ambient →
       process_cwd q = process_cwd p →
       let run_q := setEnvFromOptions resolve options q in
       deref (snd run_q) (fst run_q) = deref p' env)
  ∧ (let again := setEnvFromOptions resolve options p' in
     deref (snd again) (fst again) = deref p' env
     ∧ fst again ≠ env
     ∧ deref (snd again) env = deref p' env).
Proof.
  intros Hvalid ambient run env p'.
  assert (Hoverlay : deref p' env = overlay_of resolve (process_cwd p) options ambient)
    by apply deref_overlay.
  assert (Henv : env = length (process_heap p))
    by (unfold env, run; rewrite setEnvFromOptions_overlay; reflexivity).
  assert (Hp' : p' = with_heap p (process_heap p ++ [overlay_of resolve (process_cwd p) options ambient]))
    by (unfold p', run; rewrite setEnvFromOptions_overlay; reflexivity).
  assert (Hambient : deref p' (process_env p') = ambient).
  { rewrite Hp'. unfold deref; simpl. rewrite lookup_app_l by exact Hvalid.
    reflexivity. }
  split; [|split; [|split; [|split; [|split; [|split; [|split; [|split;
    [|split; [|split]]]]]]]]].
  - rewrite Henv. apply lookup_ge_None. lia.
  - rewrite Henv. lia.
  - intros l obj Hl. rewrite Hp'. simpl.
    rewrite lookup_app_l by (eapply lookup_lt_Some, Hl). exact Hl.
  - rewrite Hp'. reflexivity.
  - rewrite Hp'. reflexivity.
  - exact Hambient.
  - intros key Hkey. rewrite Hoverlay. apply overlay_other_key, Hkey.
  - intros key f Hin. rewrite Hoverlay.
    rewrite (overlay_string_field _ _ _ _ _ _ _ Hin). reflexivity.
  - intros key Hin. rewrite Hoverlay.
    rewrite (overlay_scalar_field _ _ _ _ _ _ Hin). reflexivity.
  - intros q Hq Hcwd run_q. unfold run_q.
    rewrite deref_overlay, Hoverlay, Hq, Hcwd. reflexivity.
  - intros again.
    assert (Hagain : deref (snd again) (fst again) = deref p' env).
    { unfold again. rewrite deref_overlay, Hambient, Hoverlay.
      rewrite Hp'. reflexivity. }
    split; [exact Hagain|].
    unfold again. rewrite setEnvFromOptions_overlay. simpl. split.
    + rewrite Henv, Hp'. simpl. rewrite length_app. simpl. lia.
    + unfold deref at 1. simpl.
      rewrite lookup_app_l
        by (rewrite Henv, Hp'; simpl; rewrite length_app; simpl; lia).
      reflexivity.
Qed.

End projector_properties.

(** The claim C1 as stated fails on a present empty string: with
    [logLevel = ""] and no [CONFIG_LOG_LEVEL] in the ambient environment,
    the returned object has no [CONFIG_LOG_LEVEL]. *)
Lemma empty_string_not_written :
  let options :=
    {| fileIni := None; credentialIssuerUri := None;
       presentationAuthorizeUri := None; credentialTypes := None;
       timeout := None; maxRetries := None; logLevel := Some ""; logFile := None;
       port := None; saveCredential := None |} in
  let run := setEnvFromOptions posix_resolve options example_process in
  logLevel options = Some ""
  ∧ deref (snd run) (fst run) !! "CONFIG_LOG_LEVEL" = None
  ∧ ¬ (∀ options p s,
         logLevel options = Some s →
         let run := setEnvFromOptions posix_resolve options p in
         deref (snd run) (fst run) !! "CONFIG_LOG_LEVEL" = Some s).
Proof.
  intros options run.
  assert (Hnone : deref (snd run) (fst run) !! "CONFIG_LOG_LEVEL" = None)
    by (vm_compute; reflexivity).
  split; [reflexivity|]. split; [exact Hnone|].
  intros Hclaim.
  specialize (Hclaim options example_process "" eq_refl).
  cbv zeta in Hclaim. fold run in Hclaim. congruence.
Qed.

(* ===================================================================== *)
(** ** The HTTP handlers (src/cli-server.ts) *)
(* ===================================================================== *)

Section runCommand_facts.

Lemma append_assoc (s t u : string) : (s +:+ t) +:+ u = s +:+ t +:+ u.
Proof.
  induction s as [|c s IH]; [reflexivity|].
  change (String c ((s +:+ t) +:+ u) = String c (s +:+ t +:+ u)).
  f_equal. exact IH.
Qed.

Lemma append_nil_r (s : string) : s +:+ "" = s.
Proof.
  induction s as [|c s IH]; [reflexivity|].
  change (String c (s +:+ "") = String c s). f_equal. exact IH.
Qed.

(** Output events append to the two buffers and leave the promise alone. *)
Lemma fold_data events st :
  Forall is_data events →
  fold_left on_event events st
  = {| run_stdout := run_stdout st +:+ stdout_of events;
       run_stderr := run_stderr st +:+ stderr_of events;
       run_promise := run_promise st |}.
Proof.
  intros Hdata. revert st.
  induction Hdata as [|ev events Hev _ IH]; intros st; simpl.
  - rewrite !append_nil_r. destruct st; reflexivity.
  - rewrite IH. destruct ev as [chunk|chunk| |]; simpl in *; try contradiction;
      rewrite ?append_assoc; reflexivity.
Qed.

(** A settled promise keeps its state whatever is emitted afterwards. *)
Lemma settled_stays events st :
  run_promise st ≠ Pending →
  run_promise (fold_left on_event events st) = run_promise st.
Proof.
  revert st. induction events as [|ev events IH]; intros st Hst; simpl;
    [reflexivity|].
  assert (Hstep : run_promise (on_event st ev) = run_promise st).
  { destruct ev; simpl; try reflexivity; unfold settle;
      destruct (run_promise st) eqn:Hpromise; simpl; congruence. }
  rewrite IH by (rewrite Hstep; exact Hst). exact Hstep.
Qed.

Lemma runCommand_close os command args env before exitCode after :
  os {| spawn_command := command; spawn_args := args; spawn_env := env |}
  = Spawned (before ++ CloseEvent exitCode :: after) →
  Forall is_data before →
  runCommand os command args env
  = Fulfilled {| exitCode := exitCode;
                 stdout := stdout_of before;
                 stderr := stderr_of before |}.
Proof.
  intros Hos Hdata. unfold runCommand. rewrite Hos.
  rewrite fold_left_app, (fold_data before _ Hdata). simpl.
  rewrite settled_stays; simpl; [reflexivity|discriminate].
Qed.

Lemma runCommand_error os command args env before error after :
  os {| spawn_command := command; spawn_args := args; spawn_env := env |}
  = Spawned (before ++ ErrorEvent error :: after) →
  Forall is_data before →
  runCommand os command args env = Rejected error.
Proof.
  intros Hos Hdata. unfold runCommand. rewrite Hos.
  rewrite fold_left_app, (fold_data before _ Hdata). simpl.
  rewrite settled_stays; simpl; [reflexivity|discriminate].
Qed.

End runCommand_facts.

Section server_properties.

Variable resolve : string → string → string.
Variable os : SpawnCall → SpawnResult.

Implicit Types (req : Request) (p : Process) (r : NormalizedOptionsResult).

(** C3. When option coercion of the merged query and body returns a
    non-empty error list, the handler answers 400 with [{ errors }] and
    calls [spawn] not at all; the two test paths are served by this handler
    for GET and POST; the body [{"timeout":"notanumber"}] gives 400 with
    [["Invalid numeric value for timeout."]]. *)
Theorem validation_errors_short_circuit :
  (∀ scriptName req p r,
     normalizeCliOptions (normalizeRequestParams req) = Normal r →
     errors r ≠ [] →
     createTestHandler resolve os scriptName req p
     = {| outcome := Responded {| status := 400; json := ErrorsJson (errors r) |};
          spawned := [];
          process_after := p |})
  ∧ (∀ m : Method,
       createCliServer resolve os m "/test/issuance"
       = Some (createTestHandler resolve os "test:issuance")
       ∧ createCliServer resolve os m "/test/presentation"
         = Some (createTestHandler resolve os "test:presentation"))
  ∧ (∀ (m : Method) p,
       ∃ handler,
         createCliServer resolve os m "/test/issuance" = Some handler
         ∧ handler {| query := ∅;
                      body := JObj [("timeout", JStr "notanumber")] |} p
           = {| outcome :=
                  Responded {| status := 400;
                               json := ErrorsJson ["Invalid numeric value for timeout."] |};
                spawned := [];
                process_after := p |}).
Proof.
  assert (Hshort : ∀ scriptName req p r,
     normalizeCliOptions (normalizeRequestParams req) = Normal r →
     errors r ≠ [] →
     createTestHandler resolve os scriptName req p
     = {| outcome := Responded {| status := 400; json := ErrorsJson (errors r) |};
          spawned := [];
          process_after := p |}).
  { intros scriptName req p r Hnorm Herrors.
    unfold createTestHandler. rewrite Hnorm.
    destruct r as [opts [|e errs]]; simpl in *; [congruence|reflexivity]. }
  split; [exact Hshort|]. split.
  - intros []; split; reflexivity.
  - intros m p. exists (createTestHandler resolve os "test:issuance").
    split; [destruct m; reflexivity|].
    apply (Hshort _ _ _
             {| options := no_options;
                errors := ["Invalid numeric value for timeout."] |}).
    + vm_compute. reflexivity.
    + discriminate.
Qed.

(** C4. When validation passes, the handler spawns [pnpm <script>] once with
    the projected environment.  If the child closes (before any error event)
    with exit code [exitCode], the answer carries
    [{command, exitCode, stdout, stderr}], the two texts being the chunks of
    each stream in emission order, with status 200 when [exitCode] is 0 and
    500 otherwise, [null] included.  If the process cannot be started (an
    error event before any close, or [spawn] throwing), the answer is 500
    with [{error: "command_execution_failed", message}]. *)
Theorem exit_code_status scriptName req p r :
  normalizeCliOptions (normalizeRequestParams req) = Normal r →
  errors r = [] →
  let run := createTestHandler resolve os scriptName req p in
  let projected := setEnvFromOptions resolve (options r) p in
  let call :=
    {| spawn_command := "pnpm"; spawn_args := [scriptName];
       spawn_env := deref (snd projected) (fst projected) |} in
  spawned run = [call]
  ∧ (∀ before exitCode after,
       os call = Spawned (before ++ CloseEvent exitCode :: after) →
       Forall is_data before →
       outcome run
       = Responded
           {| status := if bool_decide (exitCode = Some 0) then 200 else 500;
              json := PayloadJson scriptName exitCode
                        (stdout_of before) (stderr_of before) |})
  ∧ (∀ before error after,
       os call = Spawned (before ++ ErrorEvent error :: after) →
       Forall is_data before →
       outcome run
       = Responded
           {| status := 500;
              json := FailureJson "command_execution_failed"
                        match error with
                        | ErrorInstance message => message
                        | NonError _ => "Unknown error"
                        end |})
  ∧ (∀ error,
       os call = SpawnThrew error →
       outcome run
       = Responded
           {| status := 500;
              json := FailureJson "command_execution_failed"
                        match error with
                        | ErrorInstance message => message
                        | NonError _ => "Unknown error"
                        end |}).
Proof.
  intros Hnorm Herrors run projected call.
  assert (Hrun : run =
    let respond o := {| outcome := o; spawned := [call];
                        process_after := snd projected |} in
    match runCommand os "pnpm" [scriptName] (deref (snd projected) (fst projected)) with
    | Fulfilled result =>
        let payload :=
          PayloadJson scriptName (exitCode result) (stdout result) (stderr result) in
        if negb (bool_decide (exitCode result = Some 0))
        then respond (Responded {| status := 500; json := payload |})
        else respond (Responded {| status := 200; json := payload |})
    | Rejected error =>
        respond (Responded {|
          status := 500;
          json := FailureJson "command_execution_failed"
                    match error with
                    | ErrorInstance message => message
                    | NonError _ => "Unknown error"
                    end |})
    | Pending => respond NeverResponds
    end).
  { unfold run, createTestHandler. rewrite Hnorm.
    destruct r as [opts errs]; simpl in Herrors; subst errs.
    unfold call, projected. cbn [options length Nat.ltb Nat.leb].
    destruct (setEnvFromOptions resolve opts p) as [env p']. reflexivity. }
  rewrite Hrun. cbv zeta.
  split; [|split; [|split]].
  - destruct (runCommand _ _ _ _) as [|result|error]; try reflexivity.
    destruct (negb _); reflexivity.
  - intros before exitCode after Hos Hdata.
    rewrite (runCommand_close _ _ _ _ _ _ _ Hos Hdata). simpl.
    destruct (bool_decide (exitCode = Some 0)); reflexivity.
  - intros before error after Hos Hdata.
    rewrite (runCommand_error _ _ _ _ _ _ _ Hos Hdata). reflexivity.
  - intros error Hos. unfold runCommand. fold call. rewrite Hos. reflexivity.
Qed.

End server_properties.

(* ===================================================================== *)
(** ** Further properties of option coercion *)
(* ===================================================================== *)

Section coercion_structure.

Implicit Types (value : JsValue) (optionName s : string) (errors : list string).
Implicit Types (input : gmap string JsValue) (r : NormalizedOptionsResult).

Local Abbreviation raw input k := (getRawValue input (optionAliases k)).

(** [normalizeCliOptions] as the six string coercions in sequence followed
    by the record of the results. *)
Lemma normalizeCliOptions_unfold input :
  normalizeCliOptions input
  = (s1 ← coerceString (raw input K_fileIni);
     s2 ← coerceString (raw input K_credentialIssuerUri);
     s3 ← coerceString (raw input K_presentationAuthorizeUri);
     s4 ← coerceString (raw input K_credentialTypes);
     s5 ← coerceString (raw input K_logLevel);
     s6 ← coerceString (raw input K_logFile);
     Normal
       {| options :=
            {| fileIni := s1; credentialIssuerUri := s2;
               presentationAuthorizeUri := s3; credentialTypes := s4;
               timeout := fst (coerceNumber (raw input K_timeout) "timeout" []);
               maxRetries :=
                 fst (coerceNumber (raw input K_maxRetries) "max-retries" []);
               logLevel := s5; logFile := s6;
               port := fst (coerceNumber (raw input K_port) "port" []);
               saveCredential :=
                 fst (coerceBoolean (raw input K_saveCredential) "save-credential" []) |};
          errors :=
            (snd (coerceNumber (raw input K_timeout) "timeout" [])
             ++ snd (coerceNumber (raw input K_maxRetries) "max-retries" [])
             ++ snd (coerceNumber (raw input K_port) "port" [])
             ++ snd (coerceBoolean (raw input K_saveCredential) "save-credential" []))%list |}).
Proof.
  unfold normalizeCliOptions. cbv zeta.
  destruct (coerceString (raw input K_fileIni)) as [s1|];
    cbn [mbind Completion_bind]; [|reflexivity].
  destruct (coerceString (raw input K_credentialIssuerUri)) as [s2|];
    cbn [mbind Completion_bind]; [|reflexivity].
  destruct (coerceString (raw input K_presentationAuthorizeUri)) as [s3|];
    cbn [mbind Completion_bind]; [|reflexivity].
  destruct (coerceString (raw input K_credentialTypes)) as [s4|];
    cbn [mbind Completion_bind]; [|reflexivity].
  destruct (coerceNumber (raw input K_timeout) "timeout" []) as [t e1].
  rewrite (coerceNumber_push (raw input K_maxRetries)). cbv beta iota.
  destruct (coerceString (raw input K_logLevel)) as [s5|];
    cbn [mbind Completion_bind]; [|reflexivity].
  destruct (coerceString (raw input K_logFile)) as [s6|];
    cbn [mbind Completion_bind]; [|reflexivity].
  rewrite (coerceNumber_push (raw input K_port)). cbv beta iota.
  rewrite (coerceBoolean_push (raw input K_saveCredential)). cbv beta iota.
  cbn [fst snd]. rewrite <- !app_assoc. reflexivity.
Qed.

Lemma getRawValue_agree input input' aliases :
  Forall (fun alias => input !! alias = input' !! alias) aliases →
  getRawValue input aliases = getRawValue input' aliases.
Proof.
  induction 1 as [|alias aliases Ha _ IH]; simpl; [reflexivity|].
  rewrite Ha, IH. reflexivity.
Qed.

Lemma optionAliases_all k alias :
  alias ∈ optionAliases k → alias ∈ all_aliases.
Proof.
  intros H. destruct k; simpl in H;
    repeat (apply elem_of_cons in H as [->|H]);
    try (by apply elem_of_nil in H); unfold all_aliases; repeat constructor.
Qed.

Lemma raw_agree input input' k :
  (∀ alias, alias ∈ all_aliases → input !! alias = input' !! alias) →
  raw input k = raw input' k.
Proof.
  intros Hagree. apply getRawValue_agree, Forall_forall.
  intros alias Hin. apply Hagree, (optionAliases_all k), Hin.
Qed.

Lemma normalizeCliOptions_agree input input' :
  (∀ alias, alias ∈ all_aliases → input !! alias = input' !! alias) →
  normalizeCliOptions input = normalizeCliOptions input'.
Proof.
  intros H. rewrite !normalizeCliOptions_unfold.
  rewrite !(raw_agree input input') by exact H. reflexivity.
Qed.

End coercion_structure.

Section only_aliases.

Implicit Types (input : gmap string JsValue).

(** X1. The result of [normalizeCliOptions] depends on the input
    only through the eighteen alias keys: inputs that agree on them give the
    same completion, so adding, changing or removing any other key changes
    nothing. *)
Theorem unknown_keys_ignored input :
  (∀ input',
     (∀ alias, alias ∈ all_aliases → input !! alias = input' !! alias) →
     normalizeCliOptions input = normalizeCliOptions input')
  ∧ (∀ key v,
       key ∉ all_aliases →
       normalizeCliOptions (<[key := v]> input) = normalizeCliOptions input)
  ∧ (∀ key,
       key ∉ all_aliases →
       normalizeCliOptions (delete key input) = normalizeCliOptions input).
Proof.
  split; [apply normalizeCliOptions_agree|]. split.
  - intros key v Hkey. apply normalizeCliOptions_agree. intros alias Halias.
    apply lookup_insert_ne. intros ->. contradiction.
  - intros key Hkey. apply normalizeCliOptions_agree. intros alias Halias.
    apply lookup_delete_ne. intros ->. contradiction.
Qed.

End only_aliases.

Section coercion_results.

Implicit Types (value : JsValue) (optionName s : string) (errors : list string).
Implicit Types (input : gmap string JsValue) (r : NormalizedOptionsResult).

Local Abbreviation raw input k := (getRawValue input (optionAliases k)).

(** The outcome of [coerceNumber] on an empty array: a rejected value gives
    no field and the message, any other value gives a field that is not NaN
    (or none) and no message. *)
Lemma coerceNumber_cases value optionName :
  (rejected_numeric value
   ∧ coerceNumber value optionName []
     = (None, ["Invalid numeric value for " +:+ optionName +:+ "."]))
  ∨ (¬ rejected_numeric value
     ∧ snd (coerceNumber value optionName []) = []
     ∧ ∀ x, fst (coerceNumber value optionName []) = Some x → Number_isNaN x = false).
Proof.
  destruct value as [| |b|x|s|l|props];
    try (left; split; [exact I|reflexivity]);
    try (right; split; [intros []|split; [reflexivity|discriminate]]).
  - simpl. destruct (Number_isNaN x) eqn:Hx; simpl.
    + left. split; reflexivity.
    + right. split; [discriminate|]. split; [reflexivity|]. congruence.
  - destruct s as [|c s].
    { right. split; [intros [H _]; congruence|]. split; [reflexivity|discriminate]. }
    rewrite coerceNumber_string by discriminate. simpl.
    destruct (Number_isNaN (Number_parseInt (String c s) 10)) eqn:Hx; simpl.
    + left. split; [split; [discriminate|reflexivity]|reflexivity].
    + right. split; [intros [_ H]; congruence|]. split; [reflexivity|]. congruence.
Qed.

Lemma has_truthyValues x : has truthyValues x = true ↔ x ∈ ["true"; "1"; "yes"].
Proof.
  unfold has, truthyValues. rewrite bool_decide_eq_true.
  rewrite !elem_of_union, !elem_of_singleton, !elem_of_cons, elem_of_nil.
  tauto.
Qed.

Lemma has_falsyValues x : has falsyValues x = true ↔ x ∈ ["false"; "0"; "no"].
Proof.
  unfold has, falsyValues. rewrite bool_decide_eq_true.
  rewrite !elem_of_union, !elem_of_singleton, !elem_of_cons, elem_of_nil.
  tauto.
Qed.

Lemma coerceBoolean_cases value optionName :
  (rejected_boolean value
   ∧ coerceBoolean value optionName []
     = (None, ["Invalid boolean value for " +:+ optionName +:+ "."]))
  ∨ (¬ rejected_boolean value ∧ snd (coerceBoolean value optionName []) = []).
Proof.
  destruct value as [| |b|x|s|l|props];
    try (left; split; [exact I|reflexivity]);
    try (right; split; [intros []|reflexivity]).
  simpl.
  destruct (has truthyValues (toLowerCase (trim s))) eqn:Ht.
  { right. apply has_truthyValues in Ht. split; [|reflexivity].
    intros Hn. apply Hn. rewrite !elem_of_cons in *. tauto. }
  destruct (has falsyValues (toLowerCase (trim s))) eqn:Hf.
  { right. apply has_falsyValues in Hf. split; [|reflexivity].
    intros Hn. apply Hn. rewrite !elem_of_cons in *. tauto. }
  left. split; [|reflexivity].
  apply not_true_iff_false in Ht, Hf.
  rewrite has_truthyValues in Ht. rewrite has_falsyValues in Hf.
  rewrite !elem_of_cons, elem_of_nil in *. tauto.
Qed.

End coercion_results.

Section validation.

Implicit Types (input : gmap string JsValue) (r : NormalizedOptionsResult).

Local Abbreviation raw input k := (getRawValue input (optionAliases k)).

Lemma coerceNumber_not_nan value optionName :
  fst (coerceNumber value optionName []) ≠ Some S754_nan.
Proof.
  destruct (coerceNumber_cases value optionName) as [[_ ->]|(_ & _ & Hx)];
    [discriminate|].
  intros Hnan. specialize (Hx _ Hnan). discriminate.
Qed.

(** Which coercion a message among the returned errors comes from. *)
Lemma message_origin (e1 e2 e3 e4 : list string) :
  e1 = [] ∨ e1 = ["Invalid numeric value for timeout."] →
  e2 = [] ∨ e2 = ["Invalid numeric value for max-retries."] →
  e3 = [] ∨ e3 = ["Invalid numeric value for port."] →
  e4 = [] ∨ e4 = ["Invalid boolean value for save-credential."] →
  let all := (e1 ++ e2 ++ e3 ++ e4)%list in
  ("Invalid numeric value for timeout." ∈ all ↔ e1 ≠ [])
  ∧ ("Invalid numeric value for max-retries." ∈ all ↔ e2 ≠ [])
  ∧ ("Invalid numeric value for port." ∈ all ↔ e3 ≠ [])
  ∧ ("Invalid boolean value for save-credential." ∈ all ↔ e4 ≠ [])
  ∧ (all = [] ↔ e1 = [] ∧ e2 = [] ∧ e3 = [] ∧ e4 = []).
Proof.
  intros [-> | ->] [-> | ->] [-> | ->] [-> | ->]; cbn [app];
    repeat split;
    try (intros _; discriminate);
    try (intros _; rewrite ?elem_of_cons; tauto);
    try discriminate; try congruence;
    try (intros (? & ? & ? & ?); discriminate);
    rewrite ?elem_of_cons, ?elem_of_nil; intros Hin;
    repeat destruct Hin as [Hin|Hin]; try discriminate Hin; contradiction.
Qed.

Lemma coerceNumber_pushed_iff value optionName :
  snd (coerceNumber value optionName []) ≠ [] ↔ rejected_numeric value.
Proof.
  destruct (coerceNumber_cases value optionName) as [[Hr ->]|(Hr & -> & _)]; simpl; split.
  - intros _. exact Hr.
  - intros _. discriminate.
  - intros H. exfalso. apply H. reflexivity.
  - intros H. contradiction.
Qed.

Lemma coerceBoolean_pushed_iff value optionName :
  snd (coerceBoolean value optionName []) ≠ [] ↔ rejected_boolean value.
Proof.
  destruct (coerceBoolean_cases value optionName) as [[Hr ->]|(Hr & ->)]; simpl; split.
  - intros _. exact Hr.
  - intros _. discriminate.
  - intros H. exfalso. apply H. reflexivity.
  - intros H. contradiction.
Qed.

Lemma coerceNumber_rejected_absent value optionName :
  snd (coerceNumber value optionName []) ≠ [] →
  fst (coerceNumber value optionName []) = None.
Proof.
  destruct (coerceNumber_cases value optionName) as [[_ ->]|(_ & -> & _)];
    simpl; [reflexivity|congruence].
Qed.

Lemma coerceBoolean_rejected_absent value optionName :
  snd (coerceBoolean value optionName []) ≠ [] →
  fst (coerceBoolean value optionName []) = None.
Proof.
  destruct (coerceBoolean_cases value optionName) as [[_ ->]|(_ & ->)];
    simpl; [reflexivity|congruence].
Qed.

(** X2. In a returned record no numeric field is NaN, and an option
    whose message is among the errors has no field: a rejected value is
    never stored. *)
Theorem returned_fields_valid input r :
  normalizeCliOptions input = Normal r →
  numbers_valid (options r)
  ∧ ("Invalid numeric value for timeout." ∈ errors r → timeout (options r) = None)
  ∧ ("Invalid numeric value for max-retries." ∈ errors r
     → maxRetries (options r) = None)
  ∧ ("Invalid numeric value for port." ∈ errors r → port (options r) = None)
  ∧ ("Invalid boolean value for save-credential." ∈ errors r
     → saveCredential (options r) = None).
Proof.
  intros H. apply normalizeCliOptions_Normal in H.
  destruct H as (_ & _ & _ & _ & _ & _ & Ht & Hm & Hp & Hs & He).
  pose proof (message_origin _ _ _ _
    (coerceNumber_pushed (raw input K_timeout) "timeout")
    (coerceNumber_pushed (raw input K_maxRetries) "max-retries")
    (coerceNumber_pushed (raw input K_port) "port")
    (coerceBoolean_pushed (raw input K_saveCredential) "save-credential"))
    as (Mt & Mm & Mp & Ms & _).
  cbv zeta in Mt, Mm, Mp, Ms. rewrite <- He in Mt, Mm, Mp, Ms.
  unfold numbers_valid. rewrite Ht, Hm, Hp, Hs.
  split; [repeat split; apply coerceNumber_not_nan|].
  split; [intros Hin; apply coerceNumber_rejected_absent, Mt, Hin|].
  split; [intros Hin; apply coerceNumber_rejected_absent, Mm, Hin|].
  split; [intros Hin; apply coerceNumber_rejected_absent, Mp, Hin|].
  intros Hin; apply coerceBoolean_rejected_absent, Ms, Hin.
Qed.

Lemma not_not_nil (l : list string) : ¬ l ≠ [] → l = [].
Proof. destruct l; [reflexivity|]. intros H. exfalso. apply H. discriminate. Qed.

(** X3. The message of an option is among the returned errors
    exactly when its raw value is rejected, and the error list is empty
    exactly when none of the four raw values is. *)
Theorem errors_characterised input r :
  normalizeCliOptions input = Normal r →
  ("Invalid numeric value for timeout." ∈ errors r
   ↔ rejected_numeric (raw input K_timeout))
  ∧ ("Invalid numeric value for max-retries." ∈ errors r
     ↔ rejected_numeric (raw input K_maxRetries))
  ∧ ("Invalid numeric value for port." ∈ errors r
     ↔ rejected_numeric (raw input K_port))
  ∧ ("Invalid boolean value for save-credential." ∈ errors r
     ↔ rejected_boolean (raw input K_saveCredential))
  ∧ (errors r = []
     ↔ ¬ rejected_numeric (raw input K_timeout)
       ∧ ¬ rejected_numeric (raw input K_maxRetries)
       ∧ ¬ rejected_numeric (raw input K_port)
       ∧ ¬ rejected_boolean (raw input K_saveCredential)).
Proof.
  intros H. apply normalizeCliOptions_Normal in H.
  destruct H as (_ & _ & _ & _ & _ & _ & _ & _ & _ & _ & He).
  pose proof (message_origin _ _ _ _
    (coerceNumber_pushed (raw input K_timeout) "timeout")
    (coerceNumber_pushed (raw input K_maxRetries) "max-retries")
    (coerceNumber_pushed (raw input K_port) "port")
    (coerceBoolean_pushed (raw input K_saveCredential) "save-credential"))
    as (Mt & Mm & Mp & Ms & Mall).
  cbv zeta in Mt, Mm, Mp, Ms, Mall. rewrite <- He in Mt, Mm, Mp, Ms, Mall.
  pose proof (coerceNumber_pushed_iff (raw input K_timeout) "timeout") as Rt.
  pose proof (coerceNumber_pushed_iff (raw input K_maxRetries) "max-retries") as Rm.
  pose proof (coerceNumber_pushed_iff (raw input K_port) "port") as Rp.
  pose proof (coerceBoolean_pushed_iff (raw input K_saveCredential) "save-credential")
    as Rs.
  split; [rewrite Mt; exact Rt|]. split; [rewrite Mm; exact Rm|].
  split; [rewrite Mp; exact Rp|]. split; [rewrite Ms; exact Rs|].
  rewrite Mall, <- Rt, <- Rm, <- Rp, <- Rs. split.
  - intros (H1 & H2 & H3 & H4). rewrite H1, H2, H3, H4.
    repeat split; intros H; apply H; reflexivity.
  - intros (H1 & H2 & H3 & H4).
    repeat split; apply not_not_nil; assumption.
Qed.

End validation.

Section round_trip.

Implicit Types (o : CliOptions) (m : gmap string JsValue).

Lemma lookup_put_property_eq key v m :
  put_property key v m !! key
  = match v with
    | Some v => Some v
    | None => m !! key
    end.
Proof. destruct v; simpl; [apply lookup_insert_eq|reflexivity]. Qed.

Lemma lookup_put_property_ne key v m k :
  key ≠ k → put_property key v m !! k = m !! k.
Proof.
  intros Hne. destruct v; simpl; [apply lookup_insert_ne, Hne|reflexivity].
Qed.

Ltac lookup_to_json :=
  unfold to_json;
  repeat first [ rewrite lookup_put_property_ne by discriminate
               | rewrite lookup_put_property_eq ];
  rewrite ?lookup_empty.

Lemma getRawValue_to_json o k :
  getRawValue (to_json o) (optionAliases k) = default JUndefined (json_field k o).
Proof.
  destruct k; simpl; lookup_to_json;
    match goal with
    | |- context [default JUndefined ?f] => destruct f
    end; reflexivity.
Qed.

Lemma coerceString_json (f : option string) :
  coerceString (default JUndefined (JStr <$> f)) = Normal f.
Proof. destruct f; reflexivity. Qed.

Lemma coerceNumber_json (f : option number) optionName :
  f ≠ Some S754_nan →
  coerceNumber (default JUndefined (JNum <$> f)) optionName [] = (f, []).
Proof.
  intros Hf. destruct f as [x|]; [|reflexivity]. simpl.
  destruct x; try reflexivity. congruence.
Qed.

Lemma coerceBoolean_json (f : option bool) optionName :
  coerceBoolean (default JUndefined (JBool <$> f)) optionName [] = (f, []).
Proof. destruct f; reflexivity. Qed.

Lemma to_json_accepted o :
  numbers_valid o →
  normalizeCliOptions (to_json o) = Normal {| options := o; errors := [] |}.
Proof.
  intros (Ht & Hm & Hp).
  rewrite normalizeCliOptions_unfold, !getRawValue_to_json.
  cbn [json_field].
  rewrite !coerceString_json. cbn [mbind Completion_bind].
  rewrite !coerceNumber_json by assumption.
  rewrite coerceBoolean_json. cbn [fst snd app].
  destruct o. reflexivity.
Qed.

(** X4. A typed record none of whose numeric fields is NaN, sent
    as a JSON object under the camel-case names, is returned unchanged and
    without errors.  The options of any returned result are such a record:
    normalising them again returns them as they are. *)
Theorem normalize_to_json :
  (∀ o, numbers_valid o →
        normalizeCliOptions (to_json o) = Normal {| options := o; errors := [] |})
  ∧ (∀ (input : gmap string JsValue) r,
       normalizeCliOptions input = Normal r →
       normalizeCliOptions (to_json (options r))
       = Normal {| options := options r; errors := [] |}).
Proof.
  split; [apply to_json_accepted|].
  intros input r H. apply to_json_accepted.
  apply normalizeCliOptions_Normal in H.
  destruct H as (_ & _ & _ & _ & _ & _ & Ht & Hm & Hp & _).
  unfold numbers_valid. rewrite Ht, Hm, Hp.
  repeat split; apply coerceNumber_not_nan.
Qed.

End round_trip.

Section throwing.

Implicit Types (input : gmap string JsValue) (v : JsValue).

Local Abbreviation raw input k := (getRawValue input (optionAliases k)).

Lemma mapM_Throw {A B : Type} (f : A → Completion B) (e : Thrown) (l : list A) :
  Forall (fun x => (∃ y, f x = Normal y) ∨ f x = Throw e) l →
  Exists (fun x => f x = Throw e) l →
  mapM f l = Throw e.
Proof.
  induction 1 as [|x l Hx _ IH]; intros Hex; [inversion Hex|].
  cbn [mapM]. destruct Hx as [[y Hy]|Hx].
  - rewrite Hy. cbn [mbind Completion_bind].
    inversion Hex as [? ? Habs|? ? Hrest]; subst; [congruence|].
    rewrite (IH Hrest). reflexivity.
  - rewrite Hx. reflexivity.
Qed.

Lemma forallb_false {A : Type} (f : A → bool) (l : list A) :
  forallb f l = false → Exists (fun x => f x = false) l.
Proof.
  induction l as [|x l IH]; simpl; [discriminate|].
  destruct (f x) eqn:Hx; simpl; intros H;
    [apply Exists_cons_tl, IH, H|apply Exists_cons_hd, Hx].
Qed.

(** [String(...)] either returns or throws the TypeError, according to
    [convertible]. *)
Lemma ToString_throws v :
  convertible v = false → ToString v = Throw cannot_convert.
Proof.
  induction v as [| |b|x|s|elements IH|props] using JsValue_induction;
    intros Hv; try discriminate.
  - simpl in Hv. cbn [ToString].
    set (f := fun element =>
                match element with
                | JUndefined | JNull => Normal ""
                | _ => ToString element
                end).
    assert (Hf : ∀ element, convertible element = true → ∃ y, f element = Normal y).
    { intros element Hc. destruct (ToString_returns element Hc) as [y Hy].
      destruct element; try (eexists; reflexivity); exists y; exact Hy. }
    assert (Hf' : ∀ element, element ∈ elements → convertible element = false →
                   f element = Throw cannot_convert).
    { intros element Hin Hc. rewrite Forall_forall in IH.
      specialize (IH element Hin Hc).
      destruct element; try discriminate; exact IH. }
    rewrite (mapM_Throw f cannot_convert elements); [reflexivity| |].
    + apply Forall_forall. intros element Hin.
      destruct (convertible element) eqn:Hc; [left; apply Hf, Hc|right; apply Hf'; assumption].
    + apply forallb_false, Exists_exists in Hv as (element & Hin & Hc).
      apply Exists_exists. exists element. split; [exact Hin|].
      apply Hf'; [exact Hin|exact Hc].
  - simpl in Hv. apply negb_false_iff in Hv. simpl. rewrite Hv. reflexivity.
Qed.

Lemma coerceString_throws v :
  convertible v = false → coerceString v = Throw cannot_convert.
Proof.
  intros Hv. destruct v as [| |b|x|s|elements|props]; try discriminate.
  - simpl in Hv. unfold coerceString.
    rewrite (mapM_Throw ToString cannot_convert elements); [reflexivity| |].
    + apply Forall_forall. intros element Hin.
      destruct (convertible element) eqn:Hc;
        [left; apply ToString_returns, Hc|right; apply ToString_throws, Hc].
    + apply forallb_false, Exists_exists in Hv as (element & Hin & Hc).
      apply Exists_exists. exists element. split; [exact Hin|].
      apply ToString_throws, Hc.
  - unfold coerceString. rewrite (ToString_throws (JObj props) Hv). reflexivity.
Qed.

(** X5. [normalizeCliOptions] throws exactly when the raw value of one
    of the six string options holds, at some depth of arrays, an object with
    an own [toString] property; what it throws is the TypeError of the
    conversion.  The raw values of the numeric and boolean options never make
    it throw. *)
Theorem normalizeCliOptions_throws input :
  (∀ e, normalizeCliOptions input = Throw e → e = cannot_convert)
  ∧ (normalizeCliOptions input = Throw cannot_convert
     ↔ ∃ k, k ∈ string_keys ∧ convertible (raw input k) = false).
Proof.
  rewrite normalizeCliOptions_unfold.
  assert (Hcase : ∀ k,
    (convertible (raw input k) = true ∧ ∃ o, coerceString (raw input k) = Normal o)
    ∨ (convertible (raw input k) = false
       ∧ coerceString (raw input k) = Throw cannot_convert)).
  { intros k. destruct (convertible (raw input k)) eqn:Hc.
    - left. split; [reflexivity|]. apply coerceString_returns, Hc.
    - right. split; [reflexivity|]. apply coerceString_throws, Hc. }
  assert (Hin : ∀ k, k ∈ string_keys →
            convertible (raw input k) = false →
            ∃ k', k' ∈ string_keys ∧ convertible (raw input k') = false)
    by (intros k ? ?; exists k; split; assumption).
  destruct (Hcase K_fileIni) as [(C1 & o1 & ->)|(C1 & ->)];
    cbn [mbind Completion_bind];
    [|split; [congruence|split; [intros _; apply (Hin K_fileIni);
       [unfold string_keys; repeat constructor|exact C1]|reflexivity]]].
  destruct (Hcase K_credentialIssuerUri) as [(C2 & o2 & ->)|(C2 & ->)];
    cbn [mbind Completion_bind];
    [|split; [congruence|split; [intros _; apply (Hin K_credentialIssuerUri);
       [unfold string_keys; repeat constructor|exact C2]|reflexivity]]].
  destruct (Hcase K_presentationAuthorizeUri) as [(C3 & o3 & ->)|(C3 & ->)];
    cbn [mbind Completion_bind];
    [|split; [congruence|split; [intros _; apply (Hin K_presentationAuthorizeUri);
       [unfold string_keys; repeat constructor|exact C3]|reflexivity]]].
  destruct (Hcase K_credentialTypes) as [(C4 & o4 & ->)|(C4 & ->)];
    cbn [mbind Completion_bind];
    [|split; [congruence|split; [intros _; apply (Hin K_credentialTypes);
       [unfold string_keys; repeat constructor|exact C4]|reflexivity]]].
  destruct (Hcase K_logLevel) as [(C5 & o5 & ->)|(C5 & ->)];
    cbn [mbind Completion_bind];
    [|split; [congruence|split; [intros _; apply (Hin K_logLevel);
       [unfold string_keys; repeat constructor|exact C5]|reflexivity]]].
  destruct (Hcase K_logFile) as [(C6 & o6 & ->)|(C6 & ->)];
    cbn [mbind Completion_bind];
    [|split; [congruence|split; [intros _; apply (Hin K_logFile);
       [unfold string_keys; repeat constructor|exact C6]|reflexivity]]].
  split; [discriminate|]. split; [discriminate|].
  intros (k & Hk & Hc). unfold string_keys in Hk.
  rewrite !elem_of_cons, elem_of_nil in Hk.
  destruct Hk as [->|[->|[->|[->|[->|[->|[]]]]]]]; congruence.
Qed.

End throwing.

Section blank_and_padding.

Implicit Types (s ws optionName : string) (errors : list string).

Ltac by_char c := destruct c as [[] [] [] [] [] [] [] []]; vm_compute; reflexivity.

Lemma trimStart_whitespace ws :
  all_chars is_js_whitespace ws = true → trimStart ws = "".
Proof.
  induction ws as [|c ws IH]; simpl; [reflexivity|].
  intros [Hc Hws]%andb_prop. rewrite Hc. apply IH, Hws.
Qed.

Lemma trimEnd_whitespace ws :
  all_chars is_js_whitespace ws = true → trimEnd ws = "".
Proof.
  induction ws as [|c ws IH]; simpl; [reflexivity|].
  intros [Hc Hws]%andb_prop. rewrite (IH Hws), Hc. reflexivity.
Qed.

Lemma trimEnd_app_whitespace s ws :
  all_chars is_js_whitespace ws = true → trimEnd (s +:+ ws) = trimEnd s.
Proof.
  intros Hws. induction s as [|c s IH]; [apply trimEnd_whitespace, Hws|].
  change (trimEnd (String c (s +:+ ws)) = trimEnd (String c s)).
  simpl. rewrite IH. reflexivity.
Qed.

Lemma trim_padding ws1 s ws2 :
  all_chars is_js_whitespace ws1 = true →
  all_chars is_js_whitespace ws2 = true →
  trim (ws1 +:+ s +:+ ws2) = trim s.
Proof.
  intros H1 H2. unfold trim. rewrite trimStart_app_whitespace by exact H1.
  induction s as [|c s IH].
  - change ("" +:+ ws2) with ws2. rewrite (trimStart_whitespace ws2 H2). reflexivity.
  - change (String c s +:+ ws2) with (String c (s +:+ ws2)).
    cbn [trimStart]. destruct (is_js_whitespace c); [exact IH|].
    apply (trimEnd_app_whitespace (String c s)), H2.
Qed.

Lemma lower_char_whitespace c :
  is_js_whitespace (lower_char c) = is_js_whitespace c.
Proof. by_char c. Qed.

Lemma lower_char_idempotent c : lower_char (lower_char c) = lower_char c.
Proof. by_char c. Qed.

Lemma toLowerCase_idempotent s : toLowerCase (toLowerCase s) = toLowerCase s.
Proof.
  induction s as [|c s IH]; simpl; [reflexivity|].
  rewrite lower_char_idempotent, IH. reflexivity.
Qed.

Lemma trimStart_toLowerCase s :
  trimStart (toLowerCase s) = toLowerCase (trimStart s).
Proof.
  induction s as [|c s IH]; simpl; [reflexivity|].
  rewrite lower_char_whitespace. destruct (is_js_whitespace c); [exact IH|reflexivity].
Qed.

Lemma trimEnd_toLowerCase s :
  trimEnd (toLowerCase s) = toLowerCase (trimEnd s).
Proof.
  induction s as [|c s IH]; simpl; [reflexivity|].
  rewrite IH, lower_char_whitespace.
  destruct (trimEnd s); simpl; [destruct (is_js_whitespace c)|]; reflexivity.
Qed.

Lemma trim_toLowerCase s : trim (toLowerCase s) = toLowerCase (trim s).
Proof. unfold trim. rewrite trimStart_toLowerCase, trimEnd_toLowerCase. reflexivity. Qed.

Lemma parseInt_leading_whitespace ws s :
  all_chars is_js_whitespace ws = true →
  Number_parseInt (ws +:+ s) 10 = Number_parseInt s 10.
Proof.
  intros Hws. rewrite !parseInt_radix_10, trimStart_app_whitespace by exact Hws.
  reflexivity.
Qed.

Lemma parseInt_blank ws :
  all_chars is_js_whitespace ws = true → Number_parseInt ws 10 = S754_nan.
Proof.
  intros Hws. rewrite parseInt_radix_10, (trimStart_whitespace ws Hws). reflexivity.
Qed.

(** X6. A string of whitespace only: the boolean option rejects it,
    the empty string included; a numeric option rejects it unless it is the
    empty string, which counts as absent; a string option keeps it as it
    is. *)
Theorem blank_strings ws optionName errors :
  all_chars is_js_whitespace ws = true →
  coerceBoolean (JStr ws) optionName errors
  = (None, (errors ++ ["Invalid boolean value for " +:+ optionName +:+ "."])%list)
  ∧ (ws ≠ "" →
     coerceNumber (JStr ws) optionName errors
     = (None, (errors ++ ["Invalid numeric value for " +:+ optionName +:+ "."])%list))
  ∧ (ws = "" → coerceNumber (JStr ws) optionName errors = (None, errors))
  ∧ coerceString (JStr ws) = Normal (Some ws).
Proof.
  intros Hws. split; [|split; [|split]].
  - simpl. unfold trim.
    rewrite (trimStart_whitespace ws Hws). reflexivity.
  - intros Hne. rewrite coerceNumber_string by exact Hne.
    rewrite (parseInt_blank ws Hws). reflexivity.
  - intros ->. reflexivity.
  - reflexivity.
Qed.

(** X7. The boolean coercion does not see whitespace around the
    text nor the case of its letters; the numeric coercion does not see
    whitespace before a non-empty text. *)
Theorem padding_and_case ws1 s ws2 optionName errors :
  all_chars is_js_whitespace ws1 = true →
  all_chars is_js_whitespace ws2 = true →
  coerceBoolean (JStr (ws1 +:+ s +:+ ws2)) optionName errors
  = coerceBoolean (JStr s) optionName errors
  ∧ coerceBoolean (JStr (toLowerCase s)) optionName errors
    = coerceBoolean (JStr s) optionName errors
  ∧ (s ≠ "" →
     coerceNumber (JStr (ws1 +:+ s)) optionName errors
     = coerceNumber (JStr s) optionName errors).
Proof.
  intros H1 H2. split; [|split].
  - unfold coerceBoolean. rewrite (trim_padding ws1 s ws2 H1 H2). reflexivity.
  - unfold coerceBoolean.
    rewrite trim_toLowerCase, toLowerCase_idempotent. reflexivity.
  - intros Hs.
    assert (Hne : ws1 +:+ s ≠ "").
    { intros Hempty. apply append_empty in Hempty as [_ Hempty]. contradiction. }
    rewrite !coerceNumber_string by assumption.
    rewrite (parseInt_leading_whitespace ws1 s H1). reflexivity.
Qed.

End blank_and_padding.

Section null_shadows.

Implicit Types (input : gmap string JsValue) (r : NormalizedOptionsResult).

(** X8. A camel-case key that is present with [null] or [undefined]
    decides the option: the field is absent, whatever the hyphenated key
    holds. *)
Theorem null_hides_alias input r k :
  input !! key_name k = Some JNull ∨ input !! key_name k = Some JUndefined →
  normalizeCliOptions input = Normal r →
  json_field k (options r) = None.
Proof.
  intros Hnull H.
  assert (Hraw : getRawValue input (optionAliases k) = JNull
                 ∨ getRawValue input (optionAliases k) = JUndefined).
  { destruct Hnull as [Hv|Hv]; [left|right];
      destruct k; simpl in *; rewrite Hv; reflexivity. }
  apply normalizeCliOptions_Normal in H.
  destruct H as (H1 & H2 & H3 & H4 & H5 & H6 & Ht & Hm & Hp & Hs & _).
  destruct k; cbn [json_field];
    first [ rewrite Ht | rewrite Hm | rewrite Hp | rewrite Hs
          | idtac ];
    destruct Hraw as [Hraw|Hraw]; rewrite Hraw in *;
    try reflexivity;
    match goal with
    | Hc : coerceString _ = Normal ?f |- _ <$> ?f = None =>
        simpl in Hc; injection Hc as <-; reflexivity
    end.
Qed.

End null_shadows.

(* ===================================================================== *)
(** ** Further properties of the environment projector *)
(* ===================================================================== *)

Section projector_again.

Variable resolve : string → string → string.

Implicit Types (p q : Process) (options : CliOptions).

Lemma overlay_of_idempotent cwd options (ambient : gmap string string) :
  overlay_of resolve cwd options (overlay_of resolve cwd options ambient)
  = overlay_of resolve cwd options ambient.
Proof.
  apply map_eq. intros key.
  destruct (decide (key ∈ config_keys)) as [Hin|Hout];
    [|rewrite !(overlay_other_key resolve) by exact Hout; reflexivity].
  unfold config_keys in Hin. rewrite !elem_of_cons, elem_of_nil in Hin.
  assert (Hs : ∀ field f, (key, field, f) ∈ string_mapping resolve cwd options →
     overlay_of resolve cwd options (overlay_of resolve cwd options ambient) !! key
     = overlay_of resolve cwd options ambient !! key).
  { intros field f Hm. rewrite !(overlay_string_field resolve _ _ _ _ _ _ Hm).
    destruct field as [[|c s]|]; reflexivity. }
  assert (Hn : ∀ field, (key, field) ∈ scalar_mapping options →
     overlay_of resolve cwd options (overlay_of resolve cwd options ambient) !! key
     = overlay_of resolve cwd options ambient !! key).
  { intros field Hm. rewrite !(overlay_scalar_field resolve _ _ _ _ _ Hm).
    destruct field; reflexivity. }
  destruct Hin as [->|[->|[->|[->|[->|[->|[->|[->|[->|[->|[]]]]]]]]]]].
  - eapply Hs. unfold string_mapping. repeat constructor.
  - eapply Hs. unfold string_mapping. apply list_elem_of_further. repeat constructor.
  - eapply Hs. unfold string_mapping. do 2 apply list_elem_of_further. repeat constructor.
  - eapply Hs. unfold string_mapping. do 3 apply list_elem_of_further. repeat constructor.
  - eapply Hn. unfold scalar_mapping. repeat constructor.
  - eapply Hn. unfold scalar_mapping. apply list_elem_of_further. repeat constructor.
  - eapply Hs. unfold string_mapping. do 4 apply list_elem_of_further. repeat constructor.
  - eapply Hs. unfold string_mapping. do 5 apply list_elem_of_further. repeat constructor.
  - eapply Hn. unfold scalar_mapping. do 2 apply list_elem_of_further. repeat constructor.
  - eapply Hn. unfold scalar_mapping. do 3 apply list_elem_of_further. repeat constructor.
Qed.

(** X9. Projecting the same options onto an environment that is
    already the result of the projection gives that environment again: a
    process started with the projected environment, in the same working
    directory, projects to the very variables it was given. *)
Theorem projection_idempotent options p q :
  let first := setEnvFromOptions resolve options p in
  deref q (process_env q) = deref (snd first) (fst first) →
  process_cwd q = process_cwd p →
  let second := setEnvFromOptions resolve options q in
  deref (snd second) (fst second) = deref (snd first) (fst first).
Proof.
  intros first Hq Hcwd second. unfold second.
  rewrite (deref_overlay resolve options q), Hq, Hcwd.
  unfold first. rewrite (deref_overlay resolve options p).
  apply overlay_of_idempotent.
Qed.

End projector_again.

(* ===================================================================== *)
(** ** Further properties of the HTTP server *)
(* ===================================================================== *)

Section request_params.

Implicit Types (req : Request) (key : string) (v : JsValue).

Lemma own_properties_snoc props key v :
  own_properties (JObj (props ++ [(key, v)]))
  = <[key := v]> (own_properties (JObj props)).
Proof. unfold own_properties. rewrite fold_left_app. reflexivity. Qed.

(** X10. In the merged parameters a property of the body replaces the
    query parameter of the same name, and the query parameter is used where
    the body has none; a body that is [undefined], [null], a boolean or a
    number contributes nothing; within a body the last property of a name is
    the one that counts. *)
Theorem body_overrides_query (q : gmap string JsValue) (b : JsValue) key :
  let params := normalizeRequestParams {| query := q; body := b |} in
  params !! key
  = match own_properties b !! key with
    | Some v => Some v
    | None => q !! key
    end
  ∧ (match b with
     | JUndefined | JNull | JBool _ | JNum _ => params = q
     | JStr _ | JArr _ | JObj _ => True
     end)
  ∧ (∀ props v, b = JObj (props ++ [(key, v)]) → params !! key = Some v)
  ∧ (∀ props other v,
       b = JObj (props ++ [(other, v)]) → other ≠ key →
       params !! key
       = normalizeRequestParams {| query := q; body := JObj props |} !! key).
Proof.
  intros params. unfold params, normalizeRequestParams. cbn [body query].
  split; [|split; [|split]].
  - rewrite lookup_union. destruct (own_properties b !! key), (q !! key); reflexivity.
  - destruct b; try exact I; simpl; apply (left_id_L ∅ (∪)).
  - intros props v ->. rewrite own_properties_snoc, lookup_union, lookup_insert_eq.
    destruct (q !! key); reflexivity.
  - intros props other v -> Hne.
    rewrite own_properties_snoc, !lookup_union, lookup_insert_ne by exact Hne.
    reflexivity.
Qed.

End request_params.

Section merged_parameters.

Implicit Types (req : Request) (k : OptionKey) (key : string) (v : JsValue).

Local Abbreviation raw input k := (getRawValue input (optionAliases k)).

Lemma decimal_starts_with_digit i : starts_with_decimal_digit (decimal i) = true.
Proof. unfold decimal. destruct (N.to_uint i); reflexivity. Qed.

Lemma index_props_keys i elements :
  Forall (fun kv => starts_with_decimal_digit (fst kv) = true)
    (index_props i elements).
Proof.
  revert i. induction elements as [|v elements IH]; intros i; simpl;
    constructor; [apply decimal_starts_with_digit|apply IH].
Qed.

Lemma alias_starts_with_letter alias :
  alias ∈ all_aliases → starts_with_decimal_digit alias = false.
Proof.
  unfold all_aliases. intros H.
  repeat (apply elem_of_cons in H as [->|H]; [reflexivity|]).
  apply elem_of_nil in H. contradiction.
Qed.

Lemma fold_insert_other (props : list (string * JsValue)) key
    (m : gmap string JsValue) :
  Forall (fun kv => fst kv ≠ key) props →
  fold_left (fun m kv => <[fst kv := snd kv]> m) props m !! key = m !! key.
Proof.
  intros H. revert m. induction H as [|kv props Hkv _ IH]; intros m; simpl;
    [reflexivity|].
  rewrite IH. apply lookup_insert_ne, Hkv.
Qed.

(** A body that is not an object has no property named like an option. *)
Lemma own_properties_no_alias v alias :
  match v with JObj _ => False | _ => True end →
  alias ∈ all_aliases →
  own_properties v !! alias = None.
Proof.
  intros Hv Halias.
  pose proof (alias_starts_with_letter alias Halias) as Hletter.
  assert (Hkeys : ∀ i elements,
    Forall (fun kv : string * JsValue => fst kv ≠ alias) (index_props i elements)).
  { intros i elements. eapply Forall_impl; [apply index_props_keys|].
    intros kv Hdigit Heq. cbv beta in Hdigit, Heq. rewrite Heq in Hdigit.
    congruence. }
  destruct v as [| |b|x|s|elements|props]; try contradiction;
    try apply lookup_empty.
  - unfold own_properties. rewrite fold_insert_other by apply Hkeys.
    apply lookup_empty.
  - unfold own_properties. rewrite fold_insert_other by apply Hkeys.
    apply lookup_empty.
Qed.

(** X11. Only a body that is an object can set options: when the
    body is an array, a string, a number, a boolean, [null] or missing, the
    options and the errors are those of the query alone. *)
Theorem only_object_bodies_count req :
  match body req with JObj _ => False | _ => True end →
  normalizeCliOptions (normalizeRequestParams req) = normalizeCliOptions (query req).
Proof.
  intros Hbody. apply normalizeCliOptions_agree. intros alias Halias.
  unfold normalizeRequestParams. rewrite lookup_union.
  rewrite (own_properties_no_alias _ _ Hbody Halias).
  destruct (query req !! alias); reflexivity.
Qed.

(** X12. The body takes precedence over the query one spelling at
    a time only: a camel-case name in the query decides the option when the
    body does not have that same name, even if the body gives the hyphenated
    one; and a camel-case name in the body decides it whatever else is
    given. *)
Theorem camel_case_query_beats_hyphenated_body req k v :
  (own_properties (body req) !! key_name k = Some v →
   raw (normalizeRequestParams req) k = v)
  ∧ (own_properties (body req) !! key_name k = None →
     query req !! key_name k = Some v →
     raw (normalizeRequestParams req) k = v).
Proof.
  assert (Hfirst : ∀ input : gmap string JsValue,
            input !! key_name k = Some v → raw input k = v).
  { intros input Hv. destruct k; simpl in *; rewrite Hv; reflexivity. }
  split.
  - intros Hbody. apply Hfirst. unfold normalizeRequestParams.
    rewrite lookup_union, Hbody. destruct (query req !! key_name k); reflexivity.
  - intros Hbody Hquery. apply Hfirst. unfold normalizeRequestParams.
    rewrite lookup_union, Hbody, Hquery. reflexivity.
Qed.

End merged_parameters.

Section handler_properties.

Variable resolve : string → string → string.
Variable os : SpawnCall → SpawnResult.

Implicit Types (req : Request) (p q : Process) (r : NormalizedOptionsResult).

(** The handler after validation has passed. *)
Lemma createTestHandler_passed scriptName req p opts :
  normalizeCliOptions (normalizeRequestParams req)
  = Normal {| options := opts; errors := [] |} →
  createTestHandler resolve os scriptName req p
  = let env := overlay_of resolve (process_cwd p) opts (deref p (process_env p)) in
    let call := {| spawn_command := "pnpm"; spawn_args := [scriptName];
                   spawn_env := env |} in
    let respond o :=
      {| outcome := o; spawned := [call];
         process_after := with_heap p (process_heap p ++ [env]) |} in
    match runCommand os "pnpm" [scriptName] env with
    | Fulfilled result =>
        let payload :=
          PayloadJson scriptName (exitCode result) (stdout result) (stderr result) in
        if negb (bool_decide (exitCode result = Some 0))
        then respond (Responded {| status := 500; json := payload |})
        else respond (Responded {| status := 200; json := payload |})
    | Rejected error =>
        respond (Responded {|
          status := 500;
          json := FailureJson "command_execution_failed"
                    match error with
                    | ErrorInstance message => message
                    | NonError _ => "Unknown error"
                    end |})
    | Pending => respond NeverResponds
    end.
Proof.
  intros Hnorm. unfold createTestHandler. rewrite Hnorm.
  cbn [length Nat.ltb Nat.leb].
  pose proof (deref_overlay resolve opts p) as Hderef. cbv zeta in Hderef.
  rewrite (setEnvFromOptions_overlay resolve opts p) in *.
  cbn [fst snd] in Hderef. rewrite Hderef. reflexivity.
Qed.

Lemma createTestHandler_cases scriptName req p :
  let run := createTestHandler resolve os scriptName req p in
  (∃ e, normalizeCliOptions (normalizeRequestParams req) = Throw e
        ∧ run = {| outcome := HandlerThrew e; spawned := []; process_after := p |})
  ∨ (∃ r, normalizeCliOptions (normalizeRequestParams req) = Normal r
          ∧ errors r ≠ []
          ∧ run = {| outcome := Responded {| status := 400; json := ErrorsJson (errors r) |};
                     spawned := []; process_after := p |})
  ∨ (∃ opts o,
       normalizeCliOptions (normalizeRequestParams req)
       = Normal {| options := opts; errors := [] |}
       ∧ run = {| outcome := o;
                  spawned :=
                    [ {| spawn_command := "pnpm"; spawn_args := [scriptName];
                         spawn_env := overlay_of resolve (process_cwd p) opts
                                        (deref p (process_env p)) |} ];
                  process_after :=
                    with_heap p
                      (process_heap p
                       ++ [overlay_of resolve (process_cwd p) opts
                             (deref p (process_env p))]) |}
       ∧ (o = NeverResponds
          ∨ (∃ out err, o = Responded {| status := 200;
                                         json := PayloadJson scriptName (Some 0) out err |})
          ∨ (∃ code out err,
               code ≠ Some 0
               ∧ o = Responded {| status := 500;
                                  json := PayloadJson scriptName code out err |})
          ∨ (∃ message,
               o = Responded {| status := 500;
                                json := FailureJson "command_execution_failed" message |}))).
Proof.
  intros run. unfold run.
  destruct (normalizeCliOptions (normalizeRequestParams req)) as [[opts errs]|e] eqn:Hnorm.
  - destruct errs as [|msg errs].
    + right; right. rewrite (createTestHandler_passed _ _ _ _ Hnorm). cbv zeta.
      exists opts.
      destruct (runCommand os "pnpm" [scriptName] _) as [|[code out err]|error].
      * eexists. split; [reflexivity|]. split; [reflexivity|]. left; reflexivity.
      * cbn [exitCode stdout stderr].
        destruct (bool_decide (code = Some 0)) eqn:Hcode; cbn [negb].
        -- apply bool_decide_eq_true in Hcode. subst code.
           eexists. split; [reflexivity|]. split; [reflexivity|].
           right; left. eauto.
        -- apply bool_decide_eq_false in Hcode.
           eexists. split; [reflexivity|]. split; [reflexivity|].
           right; right; left. eauto.
      * eexists. split; [reflexivity|]. split; [reflexivity|].
        right; right; right. eauto.
    + right; left. eexists. split; [reflexivity|]. split; [discriminate|].
      unfold createTestHandler. rewrite Hnorm. reflexivity.
  - left. exists e. split; [reflexivity|].
    unfold createTestHandler. rewrite Hnorm. reflexivity.
Qed.

(** X13. Whatever the request and the child do, one handler call
    spawns at most once, and only [pnpm <script>]; it spawns exactly when
    option coercion returns an empty error list; an answer has status 200,
    400 or 500, status 400 exactly when nothing was spawned, and status 200
    exactly when it carries a payload with exit code 0; the handler throws
    exactly when option coercion throws, with the same exception; the
    working directory and the ambient environment of the server are as
    before. *)
Theorem handler_outcomes scriptName req p :
  (process_env p < length (process_heap p))%nat →
  let run := createTestHandler resolve os scriptName req p in
  (length (spawned run) ≤ 1)%nat
  ∧ (∀ call, call ∈ spawned run →
       spawn_command call = "pnpm" ∧ spawn_args call = [scriptName])
  ∧ (spawned run ≠ []
     ↔ ∃ opts, normalizeCliOptions (normalizeRequestParams req)
               = Normal {| options := opts; errors := [] |})
  ∧ (∀ resp, outcome run = Responded resp →
       (status resp = 200 ∨ status resp = 400 ∨ status resp = 500)
       ∧ (status resp = 400 ↔ spawned run = [])
       ∧ (status resp = 200
          ↔ ∃ out err, json resp = PayloadJson scriptName (Some 0) out err))
  ∧ (∀ e, outcome run = HandlerThrew e
          ↔ normalizeCliOptions (normalizeRequestParams req) = Throw e)
  ∧ process_cwd (process_after run) = process_cwd p
  ∧ process_env (process_after run) = process_env p
  ∧ deref (process_after run) (process_env p) = deref p (process_env p).
Proof.
  intros Hvalid run.
  destruct (createTestHandler_cases scriptName req p)
    as [(e & Hnorm & Hrun)|[(r & Hnorm & Herrors & Hrun)|(opts & o & Hnorm & Hrun & Ho)]];
    fold run in Hrun; rewrite Hrun; cbn [outcome spawned process_after length].
  - split; [lia|]. split.
    { intros call Hin. apply elem_of_nil in Hin. contradiction. }
    split.
    { split; [congruence|]. intros [opts Hopts]. congruence. }
    split; [discriminate|].
    split; [intros e'; rewrite Hnorm; split; congruence|].
    split; [reflexivity|]. split; reflexivity.
  - split; [lia|]. split.
    { intros call Hin. apply elem_of_nil in Hin. contradiction. }
    split.
    { split; [congruence|]. intros [opts Hopts].
      rewrite Hopts in Hnorm. injection Hnorm as <-. exfalso. exact (Herrors eq_refl). }
    split.
    { intros resp Hresp. injection Hresp as <-. cbn [status json].
      split; [tauto|]. split; [tauto|]. split; [discriminate|].
      intros (out & err & Hjson). discriminate. }
    split; [intros e; rewrite Hnorm; split; discriminate|].
    split; [reflexivity|]. split; reflexivity.
  - assert (Hamb : deref (with_heap p (process_heap p
                     ++ [overlay_of resolve (process_cwd p) opts (deref p (process_env p))]))
                     (process_env p) = deref p (process_env p)).
    { unfold deref; simpl. rewrite lookup_app_l by exact Hvalid. reflexivity. }
    split; [lia|]. split.
    { intros call Hin. apply list_elem_of_singleton in Hin. subst call. split; reflexivity. }
    split.
    { split; [intros _; exists opts; exact Hnorm|discriminate]. }
    split.
    { intros resp Hresp.
      destruct Ho as [->|[(out & err & ->)|[(code & out & err & Hcode & ->)|(message & ->)]]];
        [discriminate| | |]; injection Hresp as <-; cbn [status json].
      - split; [tauto|]. split; [split; discriminate|].
        split; [intros _; eauto|reflexivity].
      - split; [tauto|]. split; [split; discriminate|].
        split; [discriminate|].
        intros (out' & err' & Hjson). injection Hjson as -> _ _. congruence.
      - split; [tauto|]. split; [split; discriminate|].
        split; [discriminate|]. intros (out' & err' & Hjson). discriminate. }
    split.
    { intros e. rewrite Hnorm. split; [|discriminate].
      destruct Ho as [->|[(out & err & ->)|[(code & out & err & Hcode & ->)|(message & ->)]]];
        discriminate. }
    split; [reflexivity|]. split; [reflexivity|]. exact Hamb.
Qed.

(** What a handler call answers and spawns depends on the server process
    only through the contents of the ambient environment and the working
    directory. *)
Lemma createTestHandler_ambient scriptName req p q :
  deref q (process_env q) = deref p (process_env p) →
  process_cwd q = process_cwd p →
  outcome (createTestHandler resolve os scriptName req q)
  = outcome (createTestHandler resolve os scriptName req p)
  ∧ spawned (createTestHandler resolve os scriptName req q)
    = spawned (createTestHandler resolve os scriptName req p).
Proof.
  intros Hamb Hcwd.
  destruct (normalizeCliOptions (normalizeRequestParams req)) as [[opts errs]|e] eqn:Hnorm.
  - destruct errs as [|msg errs].
    + rewrite !(createTestHandler_passed _ _ _ _ Hnorm). cbv zeta.
      rewrite Hamb, Hcwd.
      destruct (runCommand os "pnpm" [scriptName] _) as [|result|error];
        [split; reflexivity| |split; reflexivity].
      destruct (negb _); split; reflexivity.
    + unfold createTestHandler. rewrite Hnorm. split; reflexivity.
  - unfold createTestHandler. rewrite Hnorm. split; reflexivity.
Qed.

Lemma process_after_ambient scriptName req p :
  (process_env p < length (process_heap p))%nat →
  let run := createTestHandler resolve os scriptName req p in
  deref (process_after run) (process_env (process_after run)) = deref p (process_env p)
  ∧ process_cwd (process_after run) = process_cwd p
  ∧ (process_env (process_after run) < length (process_heap (process_after run)))%nat.
Proof.
  intros Hvalid run.
  destruct (createTestHandler_cases scriptName req p)
    as [(e & Hnorm & Hrun)|[(r & Hnorm & Herrors & Hrun)|(opts & o & Hnorm & Hrun & Ho)]];
    fold run in Hrun; rewrite Hrun; cbn [process_after]; try tauto.
  split; [|split; [reflexivity|]].
  - unfold deref; simpl. rewrite lookup_app_l by exact Hvalid. reflexivity.
  - simpl. rewrite length_app. simpl. lia.
Qed.

(** X14. A request is served as if it were the first: what an
    earlier request asked for, and what its child did, has no effect on the
    answer to a later one or on the environment of its child. *)
Theorem requests_isolated script1 req1 script2 req2 p :
  (process_env p < length (process_heap p))%nat →
  let earlier := createTestHandler resolve os script1 req1 p in
  let later := createTestHandler resolve os script2 req2 (process_after earlier) in
  let alone := createTestHandler resolve os script2 req2 p in
  outcome later = outcome alone ∧ spawned later = spawned alone.
Proof.
  intros Hvalid earlier later alone.
  destruct (process_after_ambient script1 req1 p Hvalid) as (Hamb & Hcwd & _).
  apply createTestHandler_ambient; assumption.
Qed.

End handler_properties.

Section end_to_end.

Variable resolve : string → string → string.
Variable os : SpawnCall → SpawnResult.

Implicit Types (req : Request) (p : Process) (k : OptionKey).

Local Abbreviation raw input k := (getRawValue input (optionAliases k)).

Ltac lookup_variable :=
  unfold overlay_of;
  repeat first [ rewrite lookup_put_defined_ne by discriminate
               | rewrite lookup_put_truthy_ne by discriminate
               | rewrite lookup_put_defined_eq
               | rewrite lookup_put_truthy_eq ].

Lemma passed_nothing_pushed input opts :
  normalizeCliOptions input = Normal {| options := opts; errors := [] |} →
  snd (coerceNumber (raw input K_timeout) "timeout" []) = []
  ∧ snd (coerceNumber (raw input K_maxRetries) "max-retries" []) = []
  ∧ snd (coerceNumber (raw input K_port) "port" []) = []
  ∧ snd (coerceBoolean (raw input K_saveCredential) "save-credential" []) = [].
Proof.
  intros H. apply normalizeCliOptions_Normal in H.
  destruct H as (_ & _ & _ & _ & _ & _ & _ & _ & _ & _ & He).
  cbn [errors] in He. symmetry in He.
  apply app_eq_nil in He as [H1 He]. apply app_eq_nil in He as [H2 He].
  apply app_eq_nil in He as [H3 H4]. tauto.
Qed.

Lemma coerceNumber_accepted_string s optionName :
  s ≠ "" →
  snd (coerceNumber (JStr s) optionName []) = [] →
  fst (coerceNumber (JStr s) optionName []) = Some (Number_parseInt s 10).
Proof.
  intros Hs. rewrite coerceNumber_string by exact Hs.
  destruct (Number_isNaN _); simpl; [discriminate|reflexivity].
Qed.

Lemma coerceBoolean_accepted_string s optionName :
  snd (coerceBoolean (JStr s) optionName []) = [] →
  fst (coerceBoolean (JStr s) optionName [])
  = Some (has truthyValues (toLowerCase (trim s))).
Proof.
  simpl. destruct (has truthyValues _); [reflexivity|].
  destruct (has falsyValues _); simpl; [reflexivity|discriminate].
Qed.

(** X15. From the request to the environment of the child, when
    validation passes: an option whose raw value is missing, [null] or the
    empty string leaves its variable as the server has it; a non-empty
    string arrives as it is for the string options (resolved against the
    working directory for fileIni), as the decimal text of the parsed
    integer for the numeric options, and as ["true"] or ["false"] for the
    boolean option. *)
Theorem request_to_child_env scriptName req p opts call k :
  normalizeCliOptions (normalizeRequestParams req)
  = Normal {| options := opts; errors := [] |} →
  call ∈ spawned (createTestHandler resolve os scriptName req p) →
  let value := raw (normalizeRequestParams req) k in
  let ambient := deref p (process_env p) in
  (value = JUndefined ∨ value = JNull ∨ value = JStr "" →
   spawn_env call !! variable_of k = ambient !! variable_of k)
  ∧ (∀ s, value = JStr s → s ≠ "" →
       spawn_env call !! variable_of k
       = Some (variable_text resolve (process_cwd p) k s)).
Proof.
  intros Hnorm Hcall value ambient.
  assert (Henv : spawn_env call
                 = overlay_of resolve (process_cwd p) opts ambient).
  { rewrite (createTestHandler_passed resolve os _ _ _ _ Hnorm) in Hcall.
    cbv zeta in Hcall.
    destruct (runCommand os "pnpm" [scriptName] _) as [|result|error];
      [| destruct (negb _) |];
      cbn [spawned] in Hcall; apply list_elem_of_singleton in Hcall;
      subst call; reflexivity. }
  rewrite Henv. clear Henv Hcall.
  pose proof (passed_nothing_pushed _ _ Hnorm) as (Pt & Pm & Pp & Ps).
  apply normalizeCliOptions_Normal in Hnorm.
  destruct Hnorm as (H1 & H2 & H3 & H4 & H5 & H6 & Ht & Hm & Hp & Hs & _).
  cbn [options] in *.
  split.
  - intros Hvalue. unfold value in Hvalue.
    destruct k; cbn [variable_of]; lookup_variable;
      first [ rewrite Ht | rewrite Hm | rewrite Hp | rewrite Hs | idtac ];
      destruct Hvalue as [Hv|[Hv|Hv]]; rewrite Hv in *;
      try reflexivity;
      try discriminate;
      match goal with
      | Hc : coerceString _ = Normal ?f |- context [?f] =>
          simpl in Hc; injection Hc as <-; reflexivity
      end.
  - intros s Hvalue Hne. unfold value in Hvalue.
    destruct k; cbn [variable_of variable_text]; lookup_variable;
      rewrite Hvalue in *;
      try match goal with
      | Hc : coerceString (JStr s) = Normal ?f |- context [?f] =>
          simpl in Hc; injection Hc as <-;
          destruct s; [congruence|reflexivity]
      end.
    + rewrite Ht, (coerceNumber_accepted_string _ _ Hne Pt). reflexivity.
    + rewrite Hm, (coerceNumber_accepted_string _ _ Hne Pm). reflexivity.
    + rewrite Hp, (coerceNumber_accepted_string _ _ Hne Pp). reflexivity.
    + rewrite Hs, (coerceBoolean_accepted_string _ _ Ps). reflexivity.
Qed.

End end_to_end.

Section pending.

Variable resolve : string → string → string.
Variable os : SpawnCall → SpawnResult.

Implicit Types (events before after : list ChildEvent) (ev : ChildEvent).

(** Either every event is output, or there is a first one that is not. *)
Lemma first_settling events :
  Forall is_data events
  ∨ ∃ before ev after,
      events = (before ++ ev :: after)%list ∧ Forall is_data before ∧ ¬ is_data ev.
Proof.
  induction events as [|ev events IH]; [left; constructor|].
  destruct ev as [chunk|chunk|error|code].
  - destruct IH as [IH|(before & ev & after & -> & Hb & Hev)].
    + left. constructor; [exact I|exact IH].
    + right. exists (StdoutData chunk :: before), ev, after.
      split; [reflexivity|]. split; [constructor; [exact I|exact Hb]|exact Hev].
  - destruct IH as [IH|(before & ev & after & -> & Hb & Hev)].
    + left. constructor; [exact I|exact IH].
    + right. exists (StderrData chunk :: before), ev, after.
      split; [reflexivity|]. split; [constructor; [exact I|exact Hb]|exact Hev].
  - right. exists [], (ErrorEvent error), events.
    split; [reflexivity|]. split; [constructor|intros []].
  - right. exists [], (CloseEvent code), events.
    split; [reflexivity|]. split; [constructor|intros []].
Qed.

Lemma runCommand_Pending command args env :
  runCommand os command args env = Pending
  ↔ ∃ events,
      os {| spawn_command := command; spawn_args := args; spawn_env := env |}
      = Spawned events
      ∧ Forall is_data events.
Proof.
  split.
  - intros Hrun.
    destruct (os {| spawn_command := command; spawn_args := args; spawn_env := env |})
      as [error|events] eqn:Hos.
    { unfold runCommand in Hrun. rewrite Hos in Hrun. discriminate. }
    exists events. split; [reflexivity|].
    destruct (first_settling events) as [Hall|(before & ev & after & -> & Hb & Hev)];
      [exact Hall|exfalso].
    destruct ev as [chunk|chunk|error|code]; try (apply Hev; exact I).
    + rewrite (runCommand_error _ _ _ _ _ _ _ Hos Hb) in Hrun. discriminate.
    + rewrite (runCommand_close _ _ _ _ _ _ _ Hos Hb) in Hrun. discriminate.
  - intros (events & Hos & Hall). unfold runCommand. rewrite Hos.
    rewrite (fold_data events _ Hall). reflexivity.
Qed.

(** X16. After validation has passed, the handler sends no answer at
    all exactly when the child was started and emits neither a close nor an
    error event; nothing in the handler bounds the wait. *)
Theorem no_answer_without_close scriptName req p opts :
  normalizeCliOptions (normalizeRequestParams req)
  = Normal {| options := opts; errors := [] |} →
  let run := createTestHandler resolve os scriptName req p in
  let projected := setEnvFromOptions resolve opts p in
  let call :=
    {| spawn_command := "pnpm"; spawn_args := [scriptName];
       spawn_env := deref (snd projected) (fst projected) |} in
  outcome run = NeverResponds
  ↔ ∃ events, os call = Spawned events ∧ Forall is_data events.
Proof.
  intros Hnorm run projected call.
  unfold call, projected. rewrite (deref_overlay resolve opts p).
  rewrite <- runCommand_Pending.
  unfold run. rewrite (createTestHandler_passed resolve os _ _ _ _ Hnorm). cbv zeta.
  destruct (runCommand os "pnpm" [scriptName] _) as [|result|error].
  - split; reflexivity.
  - destruct (negb _); split; discriminate.
  - split; discriminate.
Qed.

End pending.

Section routes.

Variable resolve : string → string → string.
Variable os : SpawnCall → SpawnResult.

(** X17. The document served at GET /commands agrees with the rest
    of the code: the advertised option names are the property names of the
    ten options, each of which is the first alias looked up for its option;
    every advertised command is routed, for each advertised method and at
    the advertised path, to the handler that runs the script of that name;
    the document, like the one at GET /health, is sent with status 200
    without starting a process. *)
Theorem commands_consistent :
  ∃ commands advertised,
    (∀ req p,
       (λ handler, handler req p) <$> createCliServer resolve os GET "/commands"
       = Some {| outcome := Responded {| status := 200;
                                         json := CommandsJson commands advertised |};
                 spawned := []; process_after := p |})
    ∧ advertised = key_name <$> all_keys
    ∧ (∀ k, k ∈ all_keys ∧ head (optionAliases k) = Some (key_name k))
    ∧ (∀ c text,
         c ∈ commands → text ∈ method c →
         ∃ m, method_name m = text
              ∧ createCliServer resolve os m (path c)
                = Some (createTestHandler resolve os (name c)))
    ∧ (∀ c m, c ∈ commands → method_name m ∈ method c)
    ∧ (∀ req p,
         (λ handler, handler req p) <$> createCliServer resolve os GET "/health"
         = Some {| outcome := Responded {| status := 200; json := StatusJson "ok" |};
                   spawned := []; process_after := p |}).
Proof.
  eexists _, _. split; [intros req p; reflexivity|].
  split; [reflexivity|]. split.
  { intros k. split; [|destruct k; reflexivity].
    unfold all_keys. destruct k; repeat constructor. }
  split.
  { intros c text Hc Htext.
    repeat (apply elem_of_cons in Hc as [->|Hc]);
      [| |by apply elem_of_nil in Hc];
      cbn [method path name] in *;
      repeat (apply elem_of_cons in Htext as [->|Htext]);
      try (by apply elem_of_nil in Htext);
      first [ exists GET; split; reflexivity | exists POST; split; reflexivity ]. }
  split.
  - intros c m Hc.
    repeat (apply elem_of_cons in Hc as [->|Hc]);
      [| |by apply elem_of_nil in Hc];
      destruct m; cbn [method method_name]; repeat constructor.
  - intros req p. reflexivity.
Qed.

Lemma fold_case_idempotent c : fold_case (fold_case c) = fold_case c.
Proof. destruct c as [[] [] [] [] [] [] [] []]; reflexivity. Qed.

Lemma fold_case_slash c : Ascii.eqb (fold_case c) "/" = Ascii.eqb c "/".
Proof. destruct c as [[] [] [] [] [] [] [] []]; reflexivity. Qed.

Lemma same_spelling_slash c d :
  Ascii.eqb (fold_case c) (fold_case d) = true →
  Ascii.eqb c "/" = Ascii.eqb d "/".
Proof.
  intros H. apply Ascii.eqb_eq in H.
  rewrite <- (fold_case_slash c), <- (fold_case_slash d), H. reflexivity.
Qed.

(** Paths spelled alike have the same key. *)
Lemma route_key_same p q : same_spelling p q = true → route_key p = route_key q.
Proof.
  revert q. induction p as [|c p IH]; intros [|d q] H; simpl in H;
    try discriminate H; [reflexivity|].
  apply andb_prop in H as [Hc Hrest].
  pose proof (same_spelling_slash c d Hc) as Hslash.
  apply Ascii.eqb_eq in Hc.
  destruct p as [|c' p], q as [|d' q]; try discriminate Hrest.
  - simpl. rewrite Hslash, Hc. reflexivity.
  - change (String (fold_case c) (route_key (String c' p))
            = String (fold_case d) (route_key (String d' q))).
    rewrite Hc, (IH _ Hrest). reflexivity.
Qed.

(** A path is spelled like its key, or like its key with a slash added. *)
Lemma route_key_spelling path :
  same_spelling (route_key path) path = true
  ∨ same_spelling (route_key path +:+ "/") path = true.
Proof.
  induction path as [|c path IH]; [left; reflexivity|].
  destruct path as [|c' path].
  - simpl. destruct (Ascii.eqb_spec c "/") as [->|Hc].
    + right. reflexivity.
    + left. simpl. rewrite fold_case_idempotent, Ascii.eqb_refl. reflexivity.
  - change (route_key (String c (String c' path)))
      with (String (fold_case c) (route_key (String c' path))).
    destruct IH as [IH|IH]; [left|right].
    + cbn [same_spelling].
      rewrite fold_case_idempotent, Ascii.eqb_refl. exact IH.
    + change (same_spelling
                (String (fold_case c) (route_key (String c' path) +:+ "/"))
                (String c (String c' path)) = true).
      cbn [same_spelling].
      rewrite fold_case_idempotent, Ascii.eqb_refl. exact IH.
Qed.

Ltac next_char path :=
  destruct path as [|[b0 b1 b2 b3 b4 b5 b6 b7] path];
  [ try discriminate
  | destruct b0; try discriminate;
    destruct b1; try discriminate;
    destruct b2; try discriminate;
    destruct b3; try discriminate;
    destruct b4; try discriminate;
    destruct b5; try discriminate;
    destruct b6; try discriminate;
    destruct b7; try discriminate ].

(** The routes by the key of the path. *)
Lemma createCliServer_key m path handler :
  createCliServer resolve os m path = Some handler →
  (m = GET
   ∧ (route_key path = "/health" ∨ route_key path = "/commands")
   ∧ ∀ req p, spawned (handler req p) = [] ∧ process_after (handler req p) = p)
  ∨ (route_key path = "/test/issuance"
     ∧ handler = createTestHandler resolve os "test:issuance")
  ∨ (route_key path = "/test/presentation"
     ∧ handler = createTestHandler resolve os "test:presentation").
Proof.
  unfold createCliServer. generalize (route_key path) as key. intros key.
  destruct m; repeat next_char key.
  all: intros H; injection H as <-.
  all: first
    [ left; split; [reflexivity|];
      split; [first [left; reflexivity | right; reflexivity]|];
      intros req p; split; reflexivity
    | right; left; split; reflexivity
    | right; right; split; reflexivity ].
Qed.

(** X18. For GET and POST there are six routes and no other.  A path has a
    handler only if it is spelled, up to the case of its letters and one
    slash more at its end, like one of the four paths written in the
    source: [/health] and [/commands] are then served for GET only, by
    handlers that start no process and leave the server as it is, and the
    two test paths, for either method, by the handler that runs the script
    of the path.  Every path spelled in that way is routed as the path of
    the source is. *)
Theorem only_six_routes m path :
  (∀ handler,
     createCliServer resolve os m path = Some handler →
     ∃ route,
       (same_spelling route path = true
        ∨ same_spelling (route +:+ "/") path = true)
       ∧ ((m = GET
           ∧ (route = "/health" ∨ route = "/commands")
           ∧ ∀ req p,
               spawned (handler req p) = [] ∧ process_after (handler req p) = p)
          ∨ (route = "/test/issuance"
             ∧ handler = createTestHandler resolve os "test:issuance")
          ∨ (route = "/test/presentation"
             ∧ handler = createTestHandler resolve os "test:presentation")))
  ∧ (∀ route,
       route ∈ ["/health"; "/commands"; "/test/issuance"; "/test/presentation"] →
       same_spelling route path = true
       ∨ same_spelling (route +:+ "/") path = true →
       createCliServer resolve os m path = createCliServer resolve os m route).
Proof.
  split.
  - intros handler H. exists (route_key path).
    split; [apply route_key_spelling|].
    apply createCliServer_key, H.
  - intros route Hroute Hspelled.
    assert (Hkey : route_key path = route_key route).
    { destruct Hspelled as [Hs|Hs]; apply route_key_same in Hs; rewrite <- Hs;
        repeat (apply elem_of_cons in Hroute as [->|Hroute]; [reflexivity|]);
        apply elem_of_nil in Hroute; contradiction. }
    unfold createCliServer. rewrite Hkey. reflexivity.
Qed.

End routes.

Section listen_port.

Implicit Types (p : Process).


End listen_port.

Section cli_properties.

Variable resolve : string → string → string.
Variable os : SpawnCall → SpawnResult.
Variable execSync : ExecCall → ExecResult.

Implicit Types (req : Request) (p : Process) (options opts : CliOptions).

Lemma testIssuance_action_executed options p :
  executed (testIssuance_action resolve execSync options p)
  = [ {| exec_command := "pnpm test:issuance";
         exec_env := overlay_of resolve (process_cwd p) options
                       (deref p (process_env p)) |} ].
Proof.
  unfold testIssuance_action.
  pose proof (deref_overlay resolve options p) as Hderef. cbv zeta in Hderef.
  destruct (setEnvFromOptions resolve options p) as [env p'].
  cbn [fst snd] in Hderef. rewrite Hderef.
  destruct (execSync _); reflexivity.
Qed.

Lemma testPresentation_action_executed options p :
  executed (testPresentation_action resolve execSync options p)
  = [ {| exec_command := "pnpm test:presentation";
         exec_env := overlay_of resolve (process_cwd p) options
                       (deref p (process_env p)) |} ].
Proof.
  unfold testPresentation_action.
  pose proof (deref_overlay resolve options p) as Hderef. cbv zeta in Hderef.
  destruct (setEnvFromOptions resolve options p) as [env p'].
  cbn [fst snd] in Hderef. rewrite Hderef.
  destruct (execSync _); reflexivity.
Qed.

Lemma createTestHandler_spawned scriptName req p opts :
  normalizeCliOptions (normalizeRequestParams req)
  = Normal {| options := opts; errors := [] |} →
  spawned (createTestHandler resolve os scriptName req p)
  = [ {| spawn_command := "pnpm"; spawn_args := [scriptName];
         spawn_env := overlay_of resolve (process_cwd p) opts
                        (deref p (process_env p)) |} ].
Proof.
  intros Hnorm. rewrite (createTestHandler_passed resolve os _ _ _ _ Hnorm).
  cbv zeta.
  destruct (runCommand os "pnpm" [scriptName] _) as [|result|error];
    [reflexivity| |reflexivity].
  destruct (negb _); reflexivity.
Qed.

(** X20. The command line and the HTTP server start the same script
    with the same environment: when a request passes validation with the
    options [opts], its child gets exactly the variables the child of the
    command-line action gets for [opts] in a process with the same ambient
    environment and working directory.  The command-line action runs its
    command once and ends the process with status 1 exactly when the command
    fails, whatever the failure was. *)
Theorem command_line_matches_http req p opts :
  normalizeCliOptions (normalizeRequestParams req)
  = Normal {| options := opts; errors := [] |} →
  let issuance := testIssuance_action resolve execSync opts p in
  let presentation := testPresentation_action resolve execSync opts p in
  exec_env <$> executed issuance
  = spawn_env <$> spawned (createTestHandler resolve os "test:issuance" req p)
  ∧ exec_env <$> executed presentation
    = spawn_env <$> spawned (createTestHandler resolve os "test:presentation" req p)
  ∧ exec_command <$> executed issuance = ["pnpm test:issuance"]
  ∧ exec_command <$> executed presentation = ["pnpm test:presentation"]
  ∧ (∀ call, call ∈ executed issuance →
       (action_outcome issuance = ProcessExits 1 ↔ ∃ e, execSync call = ExecThrew e)
       ∧ (action_outcome issuance = ActionReturns ↔ execSync call = ExecReturned))
  ∧ (∀ call, call ∈ executed presentation →
       (action_outcome presentation = ProcessExits 1 ↔ ∃ e, execSync call = ExecThrew e)
       ∧ (action_outcome presentation = ActionReturns ↔ execSync call = ExecReturned)).
Proof.
  intros Hnorm issuance presentation.
  unfold issuance, presentation.
  rewrite testIssuance_action_executed, testPresentation_action_executed.
  rewrite !(createTestHandler_spawned _ _ _ _ Hnorm).
  split; [reflexivity|]. split; [reflexivity|].
  split; [reflexivity|]. split; [reflexivity|].
  split.
  - intros call Hcall. apply list_elem_of_singleton in Hcall. subst call.
    unfold testIssuance_action.
    pose proof (deref_overlay resolve opts p) as Hderef. cbv zeta in Hderef.
    destruct (setEnvFromOptions resolve opts p) as [env p'].
    cbn [fst snd] in Hderef. rewrite Hderef.
    destruct (execSync _) as [|e]; cbn [action_outcome]; split; split;
      try discriminate; try reflexivity; try (intros [e' He']; discriminate).
    intros _. exists e. reflexivity.
  - intros call Hcall. apply list_elem_of_singleton in Hcall. subst call.
    unfold testPresentation_action.
    pose proof (deref_overlay resolve opts p) as Hderef. cbv zeta in Hderef.
    destruct (setEnvFromOptions resolve opts p) as [env p'].
    cbn [fst snd] in Hderef. rewrite Hderef.
    destruct (execSync _) as [|e]; cbn [action_outcome]; split; split;
      try discriminate; try reflexivity; try (intros [e' He']; discriminate).
    intros _. exists e. reflexivity.
Qed.

Local Abbreviation raw input k := (getRawValue input (optionAliases k)).

Lemma isNaN_nan (x : number) : Number_isNaN x = true → x = S754_nan.
Proof. destruct x; simpl; congruence. Qed.

(** X21. The command line does not validate.  When the text given to
    [--timeout] does not start with an integer, the options handed to the
    action hold NaN for timeout, and each action runs its command all the
    same, once, with CONFIG_TIMEOUT set to ["NaN"] in the environment of the
    tests.  The same text, when it is not empty, sent over HTTP is rejected
    with status 400 and the timeout message, and no process is started. *)
Theorem command_line_skips_validation flags val p :
  timeout_text flags = Some val →
  Number_isNaN (Number_parseInt val 10) = true →
  let options := addCommonOptions flags in
  timeout options = Some S754_nan
  ∧ (∃ env,
       executed (testIssuance_action resolve execSync options p)
       = [ {| exec_command := "pnpm test:issuance"; exec_env := env |} ]
       ∧ env !! "CONFIG_TIMEOUT" = Some "NaN")
  ∧ (∃ env,
       executed (testPresentation_action resolve execSync options p)
       = [ {| exec_command := "pnpm test:presentation"; exec_env := env |} ]
       ∧ env !! "CONFIG_TIMEOUT" = Some "NaN")
  ∧ (∀ req r scriptName,
       val ≠ "" →
       raw (normalizeRequestParams req) K_timeout = JStr val →
       normalizeCliOptions (normalizeRequestParams req) = Normal r →
       let run := createTestHandler resolve os scriptName req p in
       spawned run = []
       ∧ ∃ messages,
           outcome run = Responded {| status := 400; json := ErrorsJson messages |}
           ∧ "Invalid numeric value for timeout." ∈ messages).
Proof.
  intros Hflag Hnan options.
  assert (Htimeout : timeout options = Some S754_nan).
  { unfold options, addCommonOptions. cbn [timeout]. rewrite Hflag.
    change (Some (Number_parseInt val 10) = Some S754_nan).
    rewrite (isNaN_nan _ Hnan). reflexivity. }
  assert (Hlookup :
    overlay_of resolve (process_cwd p) options (deref p (process_env p))
      !! "CONFIG_TIMEOUT" = Some "NaN").
  { rewrite (overlay_scalar_field resolve _ _ _ "CONFIG_TIMEOUT"
               (Number_toString <$> timeout options))
      by (unfold scalar_mapping; repeat constructor).
    rewrite Htimeout. reflexivity. }
  split; [exact Htimeout|]. split; [|split].
  - eexists. split; [apply testIssuance_action_executed|exact Hlookup].
  - eexists. split; [apply testPresentation_action_executed|exact Hlookup].
  - intros req r scriptName Hval Hraw Hnorm run.
    assert (Hin : "Invalid numeric value for timeout." ∈ errors r).
    { apply normalizeCliOptions_Normal in Hnorm.
      destruct Hnorm as (_ & _ & _ & _ & _ & _ & _ & _ & _ & _ & He).
      rewrite He, Hraw, coerceNumber_string by exact Hval.
      rewrite Hnan. simpl. apply list_elem_of_here. }
    unfold run, createTestHandler. rewrite Hnorm.
    destruct r as [opts [|msg errs]]; cbn [errors] in *.
    { apply elem_of_nil in Hin. contradiction. }
    split; [reflexivity|]. eexists. split; [reflexivity|exact Hin].
Qed.

End cli_properties.

(* ===================================================================== *)
(** ** The properties at concrete inputs *)
(* ===================================================================== *)





Lemma errors_ordered_witness :
  errors example_result `sublist_of` fallible_messages
  ∧ (length (errors example_result) ≤ 4)%nat
  ∧ NoDup (errors example_result).
Proof.
  refine (proj1 (errors_ordered example_input) example_result _).
  vm_compute. reflexivity.
Defined.

Lemma numeric_prefix_and_passthrough_witness :
  coerceNumber (JStr ("  " +:+ "-" +:+ digit_string [4; 2] +:+ "px")) "timeout" []
  = (Some (integer_number true 42), [])
  ∧ coerceNumber (JStr ("" +:+ "" +:+ digit_string [3] +:+ ".9")) "port" []
    = (Some (integer_number false 3), [])
  ∧ coerceNumber (JStr ("" +:+ "-" +:+ digit_string [0] +:+ "")) "port" []
    = (Some (S754_zero true), [])
  ∧ coerceNumber (JNum (number_of_dyadic 7 (-1))) "port" []
    = (Some (number_of_dyadic 7 (-1)), []).
Proof.
  destruct numeric_prefix_and_passthrough as (Hprefix & _ & _ & _ & Hpass & _).
  split; [|split; [|split]].
  - refine (Hprefix "  " "-" [4; 2] "px" "timeout" [] eq_refl _ _ _ eq_refl).
    + left.
    + discriminate.
    + repeat (constructor; [lia|]). constructor.
  - refine (Hprefix "" "" [3] ".9" "port" [] eq_refl _ _ _ eq_refl).
    + do 2 right. left.
    + discriminate.
    + repeat (constructor; [lia|]). constructor.
  - refine (Hprefix "" "-" [0] "" "port" [] eq_refl _ _ _ eq_refl).
    + left.
    + discriminate.
    + repeat (constructor; [lia|]). constructor.
  - refine (Hpass _ "port" [] _). vm_compute. discriminate.
Defined.

Lemma env_projection_witness :
  let run := setEnvFromOptions posix_resolve example_options example_process in
  let overlay := deref (snd run) (fst run) in
  overlay !! "CONFIG_FILE_INI" = Some (posix_resolve "/home/wct" "conf/a.ini")
  ∧ overlay !! "CONFIG_CREDENTIAL_ISSUER_URI"
    = deref example_process 0%nat !! "CONFIG_CREDENTIAL_ISSUER_URI"
  ∧ overlay !! "CONFIG_TIMEOUT" = Some "30"
  ∧ overlay !! "CONFIG_PORT" = deref example_process 0%nat !! "CONFIG_PORT"
  ∧ overlay !! "PATH" = deref example_process 0%nat !! "PATH"
  ∧ posix_resolve "/home/wct" "conf/a.ini" = "/home/wct/conf/a.ini".
Proof.
  intros run overlay.
  destruct (env_projection posix_resolve example_options example_process)
    as (Hstring & Hscalar & Hother & _).
  split; [|split; [|split; [|split; [|split]]]].
  - refine (proj1 (Hstring "CONFIG_FILE_INI" (Some "conf/a.ini")
                     (posix_resolve "/home/wct") _) "conf/a.ini" eq_refl _).
    + left.
    + discriminate.
  - refine (proj2 (Hstring "CONFIG_CREDENTIAL_ISSUER_URI" (Some "") id _) _).
    + right. left.
    + right. reflexivity.
  - refine (proj1 (Hscalar "CONFIG_TIMEOUT"
                     (Some (Number_toString (number_of_Z 30))) _) "30" _).
    + left.
    + vm_compute. reflexivity.
  - refine (proj2 (Hscalar "CONFIG_PORT" None _) eq_refl).
    do 2 right. left.
  - refine (Hother "PATH" _).
    unfold config_keys. rewrite !elem_of_cons, elem_of_nil.
    intros H; repeat destruct H as [H|H]; try discriminate H; exact H.
  - vm_compute. reflexivity.
Defined.

Lemma env_projection_frame_witness :
  let run := setEnvFromOptions posix_resolve example_options example_process in
  fst run ≠ process_env example_process
  ∧ deref (snd run) (process_env (snd run))
    = deref example_process (process_env example_process)
  ∧ deref (snd run) (fst run) !! "CONFIG_MAX_RETRIES"
    = deref example_process (process_env example_process) !! "CONFIG_MAX_RETRIES"
  ∧ (let again := setEnvFromOptions posix_resolve example_options (snd run) in
     deref (snd again) (fst again) = deref (snd run) (fst run)).
Proof.
  intros run.
  destruct (env_projection_frame posix_resolve example_options example_process
              ltac:(simpl; lia))
    as (_ & Hfresh & _ & _ & _ & Hambient & _ & _ & Hscalar & _ & Hagain & _).
  split; [exact Hfresh|]. split; [exact Hambient|]. split; [|exact Hagain].
  refine (Hscalar "CONFIG_MAX_RETRIES" _). right. left.
Defined.

Lemma validation_errors_short_circuit_witness :
  let req := {| query := example_input; body := JUndefined |} in
  createTestHandler posix_resolve example_os "test:presentation" req example_process
  = {| outcome :=
         Responded {| status := 400; json := ErrorsJson (errors example_result) |};
       spawned := [];
       process_after := example_process |}.
Proof.
  intros req.
  refine (proj1 (validation_errors_short_circuit posix_resolve example_os)
            "test:presentation" req example_process example_result _ _).
  - vm_compute. reflexivity.
  - discriminate.
Defined.

Lemma exit_code_status_witness :
  outcome (createTestHandler posix_resolve example_os "test:issuance"
             example_request example_process)
  = Responded {| status := 200;
                 json := PayloadJson "test:issuance" (Some 0)
                           "1 passed, 0 failed" "warning" |}
  ∧ outcome (createTestHandler posix_resolve failing_os "test:issuance"
               example_request example_process)
    = Responded {| status := 500;
                   json := FailureJson "command_execution_failed"
                             "spawn pnpm ENOENT" |}.
Proof.
  pose (r := {| options :=
                  {| fileIni := None; credentialIssuerUri := None;
                     presentationAuthorizeUri := None; credentialTypes := None;
                     timeout := Some (number_of_Z 5); maxRetries := None;
                     logLevel := None; logFile := None;
                     port := None; saveCredential := None |};
                errors := [] |}).
  assert (Hnorm : normalizeCliOptions (normalizeRequestParams example_request) = Normal r)
    by (vm_compute; reflexivity).
  split.
  - refine (proj1 (proj2 (exit_code_status posix_resolve example_os "test:issuance"
                            example_request example_process r Hnorm eq_refl))
              [StdoutData "1 passed"; StderrData "warning"; StdoutData ", 0 failed"]
              (Some 0) [] eq_refl _).
    repeat (constructor; [exact I|]). constructor.
  - refine (proj1 (proj2 (proj2 (exit_code_status posix_resolve failing_os
                                   "test:issuance" example_request example_process
                                   r Hnorm eq_refl)))
              [] (ErrorInstance "spawn pnpm ENOENT") [CloseEvent (Some (-2))]
              eq_refl _).
    constructor.
Defined.

Lemma unknown_keys_ignored_witness :
  normalizeCliOptions (<["verbose" := JBool true]> example_input)
  = normalizeCliOptions example_input.
Proof.
  refine (proj1 (proj2 (unknown_keys_ignored example_input)) "verbose" (JBool true) _).
  unfold all_aliases. rewrite !elem_of_cons, elem_of_nil.
  intros H; repeat destruct H as [H|H]; try discriminate H; exact H.
Defined.

Lemma returned_fields_valid_witness :
  numbers_valid (options example_result)
  ∧ timeout (options example_result) = None.
Proof.
  assert (Hnorm : normalizeCliOptions example_input = Normal example_result)
    by (vm_compute; reflexivity).
  destruct (returned_fields_valid example_input example_result Hnorm)
    as (Hvalid & Htimeout & _).
  split; [exact Hvalid|]. refine (Htimeout _). apply list_elem_of_here.
Defined.

Lemma errors_characterised_witness :
  rejected_numeric (getRawValue example_input (optionAliases K_timeout))
  ∧ ¬ rejected_numeric (getRawValue example_input (optionAliases K_maxRetries)).
Proof.
  assert (Hnorm : normalizeCliOptions example_input = Normal example_result)
    by (vm_compute; reflexivity).
  destruct (errors_characterised example_input example_result Hnorm)
    as (Htimeout & Hretries & _).
  split.
  - refine (proj1 Htimeout _). apply list_elem_of_here.
  - intros Hrejected. apply (proj2 Hretries) in Hrejected.
    unfold example_result in Hrejected. cbn [errors] in Hrejected.
    rewrite !elem_of_cons, elem_of_nil in Hrejected.
    repeat destruct Hrejected as [Hrejected|Hrejected];
      try discriminate Hrejected; exact Hrejected.
Defined.

Lemma normalize_to_json_witness :
  normalizeCliOptions (to_json example_options)
  = Normal {| options := example_options; errors := [] |}
  ∧ normalizeCliOptions (to_json (options example_result))
    = Normal {| options := options example_result; errors := [] |}.
Proof.
  destruct normalize_to_json as (Hrecord & Hagain).
  split.
  - refine (Hrecord example_options _). repeat split; discriminate.
  - refine (Hagain example_input example_result _). vm_compute. reflexivity.
Defined.

Lemma normalizeCliOptions_throws_witness :
  normalizeCliOptions unconvertible_input = Throw cannot_convert.
Proof.
  refine (proj2 (proj2 (normalizeCliOptions_throws unconvertible_input)) _).
  exists K_logLevel. split.
  - unfold string_keys. do 4 apply list_elem_of_further. apply list_elem_of_here.
  - vm_compute. reflexivity.
Defined.

Lemma blank_strings_witness :
  coerceBoolean (JStr "  ") "save-credential" []
  = (None, ["Invalid boolean value for save-credential."])
  ∧ coerceNumber (JStr "  ") "port" [] = (None, ["Invalid numeric value for port."])
  ∧ coerceNumber (JStr "") "port" [] = (None, [])
  ∧ coerceString (JStr "  ") = Normal (Some "  ").
Proof.
  destruct (blank_strings "  " "save-credential" [] eq_refl) as (Hboolean & _).
  destruct (blank_strings "  " "port" [] eq_refl) as (_ & Hnumber & _ & Hstring).
  destruct (blank_strings "" "port" [] eq_refl) as (_ & _ & Hempty & _).
  split; [exact Hboolean|]. split; [refine (Hnumber _); discriminate|].
  split; [exact (Hempty eq_refl)|exact Hstring].
Defined.

Lemma padding_and_case_witness :
  coerceBoolean (JStr (" " +:+ "Yes" +:+ "  ")) "save-credential" []
  = coerceBoolean (JStr "Yes") "save-credential" []
  ∧ coerceBoolean (JStr (toLowerCase "Yes")) "save-credential" []
    = coerceBoolean (JStr "Yes") "save-credential" []
  ∧ coerceNumber (JStr (" " +:+ "30")) "timeout" []
    = coerceNumber (JStr "30") "timeout" [].
Proof.
  destruct (padding_and_case " " "Yes" "  " "save-credential" [] eq_refl eq_refl)
    as (Hpadding & Hcase & _).
  destruct (padding_and_case " " "30" "" "timeout" [] eq_refl eq_refl)
    as (_ & _ & Hnumber).
  split; [exact Hpadding|]. split; [exact Hcase|].
  refine (Hnumber _). discriminate.
Defined.

Lemma null_hides_alias_witness :
  json_field K_maxRetries (options {| options := no_options; errors := [] |}) = None.
Proof.
  refine (null_hides_alias {[ "max-retries" := JStr "7"; "maxRetries" := JNull ]}
            {| options := no_options; errors := [] |} K_maxRetries _ _).
  - left. vm_compute. reflexivity.
  - vm_compute. reflexivity.
Defined.

Lemma projection_idempotent_witness :
  let first := setEnvFromOptions posix_resolve example_options example_process in
  process_cwd (snd first) = process_cwd example_process
  ∧ (let child :=
       {| process_heap := [deref (snd first) (fst first)];
          process_env := 0%nat;
          process_cwd := process_cwd example_process |} in
     let again := setEnvFromOptions posix_resolve example_options child in
     deref (snd again) (fst again) = deref (snd first) (fst first)).
Proof.
  intros first. split; [reflexivity|].
  intros child again.
  refine (projection_idempotent posix_resolve example_options example_process child _ _).
  - reflexivity.
  - reflexivity.
Defined.

Lemma body_overrides_query_witness :
  normalizeRequestParams
    {| query := {[ "timeout" := JStr "5" ]};
       body := JObj [("timeout", JStr "9")] |} !! "timeout"
  = Some (JStr "9").
Proof.
  refine (proj1 (proj2 (proj2
            (body_overrides_query {[ "timeout" := JStr "5" ]}
               (JObj [("timeout", JStr "9")]) "timeout")))
            [] (JStr "9") eq_refl).
Defined.

Lemma handler_outcomes_witness :
  let run := createTestHandler posix_resolve example_os "test:issuance"
               example_request example_process in
  (length (spawned run) ≤ 1)%nat
  ∧ deref (process_after run) (process_env example_process)
    = deref example_process (process_env example_process).
Proof.
  intros run.
  destruct (handler_outcomes posix_resolve example_os "test:issuance"
              example_request example_process ltac:(simpl; lia))
    as (Honce & _ & _ & _ & _ & _ & _ & Hambient).
  split; [exact Honce|exact Hambient].
Defined.

Lemma requests_isolated_witness :
  let earlier := createTestHandler posix_resolve example_os "test:presentation"
                   {| query := example_input; body := JUndefined |} example_process in
  outcome (createTestHandler posix_resolve example_os "test:issuance"
             example_request (process_after earlier))
  = outcome (createTestHandler posix_resolve example_os "test:issuance"
               example_request example_process).
Proof.
  intros earlier.
  refine (proj1 (requests_isolated posix_resolve example_os "test:presentation"
                   {| query := example_input; body := JUndefined |}
                   "test:issuance" example_request example_process _)).
  simpl. lia.
Defined.

Lemma request_to_child_env_witness :
  let call :=
    {| spawn_command := "pnpm"; spawn_args := ["test:issuance"];
       spawn_env := overlay_of posix_resolve (process_cwd example_process)
                      example_request_options
                      (deref example_process (process_env example_process)) |} in
  spawn_env call !! variable_of K_timeout
  = Some (variable_text posix_resolve (process_cwd example_process) K_timeout "5")
  ∧ spawn_env call !! variable_of K_port
    = deref example_process (process_env example_process) !! variable_of K_port.
Proof.
  intros call.
  assert (Hnorm : normalizeCliOptions (normalizeRequestParams example_request)
                  = Normal {| options := example_request_options; errors := [] |})
    by (vm_compute; reflexivity).
  assert (Hcall : call ∈ spawned (createTestHandler posix_resolve example_os
                                    "test:issuance" example_request example_process)).
  { rewrite (createTestHandler_spawned _ _ _ _ _ _ Hnorm). apply list_elem_of_here. }
  split.
  - refine (proj2 (request_to_child_env posix_resolve example_os "test:issuance"
                     example_request example_process example_request_options
                     call K_timeout Hnorm Hcall) "5" _ _).
    + vm_compute. reflexivity.
    + discriminate.
  - refine (proj1 (request_to_child_env posix_resolve example_os "test:issuance"
                     example_request example_process example_request_options
                     call K_port Hnorm Hcall) _).
    left. vm_compute. reflexivity.
Defined.

Lemma no_answer_without_close_witness :
  outcome (createTestHandler posix_resolve silent_os "test:issuance"
             example_request example_process)
  = NeverResponds.
Proof.
  refine (proj2 (no_answer_without_close posix_resolve silent_os "test:issuance"
                   example_request example_process example_request_options _) _).
  - vm_compute. reflexivity.
  - exists [StdoutData "running"]. split; [reflexivity|].
    constructor; [exact I|constructor].
Defined.

Lemma commands_consistent_witness :
  ∃ m, method_name m = "POST"
       ∧ createCliServer posix_resolve example_os m "/test/presentation"
         = Some (createTestHandler posix_resolve example_os "test:presentation").
Proof.
  destruct (commands_consistent posix_resolve example_os)
    as (commands & advertised & Hdocument & _ & _ & Hrouted & _).
  specialize (Hdocument example_request example_process).
  injection Hdocument as Hcommands _. subst commands.
  refine (Hrouted {| name := "test:presentation"; method := ["GET"; "POST"];
                     path := "/test/presentation" |} "POST" _ _).
  - apply list_elem_of_further, list_elem_of_here.
  - apply list_elem_of_further, list_elem_of_here.
Defined.

Lemma only_six_routes_witness :
  createCliServer posix_resolve example_os POST "/Test/Issuance/"
  = createCliServer posix_resolve example_os POST "/test/issuance".
Proof.
  refine (proj2 (only_six_routes posix_resolve example_os POST "/Test/Issuance/")
            "/test/issuance" _ _).
  - do 2 apply list_elem_of_further. apply list_elem_of_here.
  - right. reflexivity.
Defined.


Lemma command_line_matches_http_witness :
  exec_env <$> executed (testIssuance_action posix_resolve failing_exec
                           example_request_options example_process)
  = spawn_env <$> spawned (createTestHandler posix_resolve example_os "test:issuance"
                             example_request example_process).
Proof.
  refine (proj1 (command_line_matches_http posix_resolve example_os failing_exec
                   example_request example_process example_request_options _)).
  vm_compute. reflexivity.
Defined.

Lemma command_line_skips_validation_witness :
  (∃ env,
     executed (testIssuance_action posix_resolve failing_exec
                 (addCommonOptions example_flags) example_process)
     = [ {| exec_command := "pnpm test:issuance"; exec_env := env |} ]
     ∧ env !! "CONFIG_TIMEOUT" = Some "NaN")
  ∧ spawned (createTestHandler posix_resolve example_os "test:issuance"
               {| query := {[ "timeout" := JStr "abc" ]}; body := JUndefined |}
               example_process) = [].
Proof.
  destruct (command_line_skips_validation posix_resolve example_os failing_exec
              example_flags "abc" example_process eq_refl)
    as (_ & Hissuance & _ & Hhttp).
  - vm_compute. reflexivity.
  - split; [exact Hissuance|].
    refine (proj1 (Hhttp {| query := {[ "timeout" := JStr "abc" ]};
                            body := JUndefined |}
                     {| options := no_options;
                        errors := ["Invalid numeric value for timeout."] |}
                     "test:issuance" _ _ _)).
    + discriminate.
    + vm_compute. reflexivity.
    + vm_compute. reflexivity.
Defined.

Lemma only_object_bodies_count_witness :
  normalizeCliOptions
    (normalizeRequestParams {| query := example_input; body := JArr [JStr "x"] |})
  = normalizeCliOptions example_input.
Proof.
  refine (only_object_bodies_count
            {| query := example_input; body := JArr [JStr "x"] |} I).
Defined.

Lemma camel_case_query_beats_hyphenated_body_witness :
  getRawValue
    (normalizeRequestParams
       {| query := {[ "maxRetries" := JStr "3" ]};
          body := JObj [("max-retries", JStr "7")] |})
    (optionAliases K_maxRetries)
  = JStr "3".
Proof.
  refine (proj2 (camel_case_query_beats_hyphenated_body
                   {| query := {[ "maxRetries" := JStr "3" ]};
                      body := JObj [("max-retries", JStr "7")] |}
                   K_maxRetries (JStr "3")) _ _).
  - vm_compute. reflexivity.
  - vm_compute. reflexivity.
Defined.
